(** * ShellSherpa: session registry, tags and command dispatch

    A shallow embedding of [shellsherpa.py]: the [Message] and [Client]
    classes, the [ClientPool] registry and the part of [tcp_handler] that
    pairs a queued message with its response.  Python objects live in a
    store and are named by references, so that two queues holding the
    same [Message] really share it; methods are state transformers that
    may return, raise, or block on the registry lock. *)

From Stdlib Require Import Ascii String ZArith Lia.
From stdpp Require Import base decidable option list strings gmap.

Local Open Scope string_scope.
Local Open Scope nat_scope.
Local Open Scope list_scope.

(** ** Python strings

    A [str] is modelled as a [string] whose characters are the code points
    below 256. *)

Module PyStr.

Definition dquote : ascii := ascii_of_nat 34.
Definition squote : ascii := ascii_of_nat 39.

(** Membership in the character set handed to [tag.strip]: the double
    and the single quote. *)
Definition is_quote (a : ascii) : bool :=
  bool_decide (a = dquote) || bool_decide (a = squote).

(** [str.isspace] on one character: the separators of [str.split()]. *)
Definition isspace (a : ascii) : bool :=
  let n := nat_of_ascii a in
  ((9 <=? n) && (n <=? 13) || (28 <=? n) && (n <=? 32)
   || (n =? 133) || (n =? 160))%nat.

Fixpoint forallb (p : ascii → bool) (s : string) : bool :=
  match s with
  | EmptyString => true
  | String a s' => p a && forallb p s'
  end.

Fixpoint lstrip (p : ascii → bool) (s : string) : string :=
  match s with
  | EmptyString => EmptyString
  | String a s' => if p a then lstrip p s' else s
  end.

Fixpoint rstrip (p : ascii → bool) (s : string) : string :=
  match s with
  | EmptyString => EmptyString
  | String a s' =>
      match rstrip p s' with
      | EmptyString => if p a then EmptyString else String a EmptyString
      | r => String a r
      end
  end.

(** [s.strip(chars)]: drop the leading and the trailing characters that
    belong to [chars]. *)
Definition strip (p : ascii → bool) (s : string) : string :=
  rstrip p (lstrip p s).

(** [s.split()]: the maximal runs of non-whitespace characters. *)
Fixpoint split (s : string) : list string :=
  match s with
  | EmptyString => []
  | String a s' =>
      if isspace a then split s'
      else match s' with
           | EmptyString => [String a EmptyString]
           | String b _ =>
               if isspace b then String a EmptyString :: split s'
               else match split s' with
                    | tok :: r => String a tok :: r
                    | [] => [String a EmptyString]
                    end
           end
  end.

(** A string is blank when [split] finds no token in it. *)
Definition blank (s : string) : bool := forallb isspace s.

Definition starts_with_space (s : string) : bool :=
  match s with
  | EmptyString => true
  | String a _ => isspace a
  end.

End PyStr.

(** ** Wall-clock time and [generate_timestamp] *)

Record datetime := mk_datetime {
  year : Z; month : Z; day : Z;
  hour : Z; minute : Z; second : Z
}.

(** The values [datetime.datetime.now()] can hold on a running system:
    the calendar fields in their ranges and a four-digit year. *)
Definition valid_datetime (d : datetime) : Prop :=
  (1000 ≤ year d ≤ 9999 ∧ 1 ≤ month d ≤ 12 ∧ 1 ≤ day d ≤ 31 ∧
   0 ≤ hour d < 24 ∧ 0 ≤ minute d < 60 ∧ 0 ≤ second d < 60)%Z.

Definition digit (n : Z) : ascii := ascii_of_nat (Z.to_nat (48 + n)).

Definition is_digit (a : ascii) : bool :=
  ((48 <=? nat_of_ascii a) && (nat_of_ascii a <=? 57))%nat.

(** [%m], [%d], [%H], [%M], [%S]: two digits, zero padded. *)
Definition fmt2 (n : Z) : string :=
  String (digit (n / 10)) (String (digit (n mod 10)) EmptyString).

(** [%Y] for a year of four digits. *)
Definition fmtY (n : Z) : string :=
  String (digit (n / 1000)) (String (digit (n / 100 mod 10))
    (String (digit (n / 10 mod 10)) (String (digit (n mod 10)) EmptyString))).

(** ['{:%Y%m%d%H%M%S}'.format(now)] *)
Definition generate_timestamp (now : datetime) : string :=
  fmtY (year now) +:+ fmt2 (month now) +:+ fmt2 (day now) +:+
  fmt2 (hour now) +:+ fmt2 (minute now) +:+ fmt2 (second now).

(** ** Exceptions and results *)

Inductive exn :=
  | IndexError | ValueError | RuntimeError | TypeError
  | OSError | UnicodeDecodeError.

Inductive res (A : Type) :=
  | Val (a : A)
  | Exc (e : exn).
Arguments Val {A} a.
Arguments Exc {A} e.

(** ** class Message *)

Record Message := mk_Message {
  command : string;
  timestamp : string;
  results : option string;
  job_name : string
}.

(** Python truth value of the [job_name] argument: [None] and the empty
    string are false. *)
Definition truthy (o : option string) : bool :=
  match o with
  | Some (String _ _) => true
  | _ => false
  end.

(** [Message.__init__(command, job_name)], the clock read by
    [generate_timestamp] showing [now]. *)
Definition Message_init (cmd : string) (jn : option string) (now : datetime)
  : res Message :=
  let ts := generate_timestamp now in
  if truthy jn then
    Val (mk_Message cmd ts None (default EmptyString jn))
  else
    match PyStr.split cmd with
    | tok :: _ => Val (mk_Message cmd ts None tok)
    | [] => Exc IndexError
    end.

Definition get_fullname (m : Message) : string :=
  job_name m +:+ "." +:+ timestamp m.

Definition set_results (m : Message) (r : string) : Message :=
  mk_Message (command m) (timestamp m) (Some r) (job_name m).

(** ** Python lists *)

(** [l.remove(x)]: delete the first element equal to [x]; [None] stands
    for the [ValueError] raised when there is none. *)
Fixpoint list_remove `{EqDecision A} (x : A) (l : list A) : option (list A) :=
  match l with
  | [] => None
  | y :: l' =>
      if decide (y = x) then Some l'
      else match list_remove x l' with
           | Some r => Some (y :: r)
           | None => None
           end
  end.

(** ** class Client

    Objects are named by references; a queue holds references to
    [Message] objects, oldest first. *)

Definition ref := nat.

Record Client := mk_Client {
  keep_alive : bool;
  uuid : string;
  addr : string;
  send_queue : list ref;
  tags : list string
}.

Definition set_tags (l : list string) (c : Client) : Client :=
  mk_Client (keep_alive c) (uuid c) (addr c) (send_queue c) l.

Definition set_send_queue (q : list ref) (c : Client) : Client :=
  mk_Client (keep_alive c) (uuid c) (addr c) q (tags c).

(** The tag list built by the first lines of [Client.__init__]: the uuid,
    the address, then the default tag appended when one is set. *)
Definition initial_tags (dt : option string) (u a : string) : list string :=
  [u; a] ++ match dt with Some t => [t] | None => [] end.

Definition shutdown (c : Client) : Client :=
  mk_Client false (uuid c) (addr c) (send_queue c) (tags c).

Definition add_tag (tag : string) (c : Client) : Client :=
  if bool_decide (tag ∈ tags c) then c
  else set_tags (tags c ++ [tag]) c.

Definition remove_tag (tag : string) (c : Client) : res Client :=
  if bool_decide (tag ∈ tags c) && bool_decide (tag ≠ uuid c)
     && bool_decide (tag ≠ addr c)
  then match list_remove tag (tags c) with
       | Some l => Val (set_tags l c)
       | None => Exc ValueError
       end
  else Val c.

Definition send (m : ref) (c : Client) : Client :=
  set_send_queue (send_queue c ++ [m]) c.

Definition client_directory (out_dir : option string) (c : Client) : string :=
  let path := addr c +:+ "_" +:+ uuid c in
  match out_dir with
  | Some d => d +:+ "/" +:+ path
  | None => path
  end.

(** A run of tag edits applied to one session, as [addtag] and
    [removetag] issue them. *)
Inductive tag_op := AddTag (t : string) | RemoveTag (t : string).

Fixpoint run_tag_ops (ops : list tag_op) (c : Client) : res Client :=
  match ops with
  | [] => Val c
  | AddTag t :: ops' => run_tag_ops ops' (add_tag t c)
  | RemoveTag t :: ops' =>
      match remove_tag t c with
      | Val c' => run_tag_ops ops' c'
      | Exc e => Exc e
      end
  end.

(** ** The program state *)

Inductive lock_event := Acquire | Release.

(** What happens to the registry, in the order it happens: a call on
    [clients_lock], or a change of the list [self.clients] ([append] in
    [add_client], [remove] in [remove_client]). *)
Inductive pool_event := OnLock (e : lock_event) | ListWrite.

(** What [process_response] emits: a line on the console, or a file. *)
Inductive output :=
  | Printed (u a fullname : string) (r : option string)
  | Written (path : string) (contents : string).

(** The globals, the objects, the registry and what the program has
    emitted.  [lock_log] lists the calls on the lock, [pool_trace] the
    same calls together with the changes of the list, in the order they
    happen.  [fs_refuses path] tells whether the file system, met by
    [create_outfile], fails to make the session's directory or to
    create the file [path] in it. *)
Record World := mk_World {
  default_tag : option string;
  autoruns : gmap string (list string);
  out_dir : option string;
  clock : datetime;
  next_ref : ref;
  messages : ref → Message;
  objects : ref → Client;
  clients_lock : bool;
  pool_clients : list ref;
  lock_log : list lock_event;
  outputs : list output;
  pool_trace : list pool_event;
  fs_refuses : string → bool
}.

Definition update {A} (f : ref → A) (r : ref) (x : A) : ref → A :=
  λ r', if decide (r' = r) then x else f r'.

Definition set_lock (b : bool) (e : lock_event) (w : World) : World :=
  mk_World (default_tag w) (autoruns w) (out_dir w) (clock w) (next_ref w)
    (messages w) (objects w) b (pool_clients w) (lock_log w ++ [e])
    (outputs w) (pool_trace w ++ [OnLock e]) (fs_refuses w).

Definition set_pool_clients (l : list ref) (w : World) : World :=
  mk_World (default_tag w) (autoruns w) (out_dir w) (clock w) (next_ref w)
    (messages w) (objects w) (clients_lock w) l (lock_log w) (outputs w)
    (pool_trace w ++ [ListWrite]) (fs_refuses w).

Definition set_object (r : ref) (c : Client) (w : World) : World :=
  mk_World (default_tag w) (autoruns w) (out_dir w) (clock w) (next_ref w)
    (messages w) (update (objects w) r c) (clients_lock w) (pool_clients w)
    (lock_log w) (outputs w) (pool_trace w) (fs_refuses w).

Definition set_message (r : ref) (m : Message) (w : World) : World :=
  mk_World (default_tag w) (autoruns w) (out_dir w) (clock w) (next_ref w)
    (update (messages w) r m) (objects w) (clients_lock w) (pool_clients w)
    (lock_log w) (outputs w) (pool_trace w) (fs_refuses w).

Definition bump_ref (w : World) : World :=
  mk_World (default_tag w) (autoruns w) (out_dir w) (clock w)
    (S (next_ref w)) (messages w) (objects w) (clients_lock w)
    (pool_clients w) (lock_log w) (outputs w) (pool_trace w) (fs_refuses w).

Definition emit (o : output) (w : World) : World :=
  mk_World (default_tag w) (autoruns w) (out_dir w) (clock w) (next_ref w)
    (messages w) (objects w) (clients_lock w) (pool_clients w) (lock_log w)
    (outputs w ++ [o]) (pool_trace w) (fs_refuses w).

(** ** Computations: return, raise, block on the lock

    A call ends by returning a value, by raising an exception, or by
    waiting on a lock that is held ([Blocked]).  [OutOfFuel] is the
    answer of a loop whose iteration bound was too small; the loops of
    this program are given a bound they never reach. *)

Inductive outcome (A : Type) :=
  | Ok (a : A) (w : World)
  | Raise (e : exn) (w : World)
  | Blocked (w : World)
  | OutOfFuel.
Arguments Ok {A} a w.
Arguments Raise {A} e w.
Arguments Blocked {A} w.
Arguments OutOfFuel {A}.

Definition M (A : Type) := World → outcome A.

Global Instance M_ret : MRet M := λ A a w, Ok a w.

Global Instance M_bind : MBind M := λ A B k m w,
  match m w with
  | Ok a w' => k a w'
  | Raise e w' => Raise e w'
  | Blocked w' => Blocked w'
  | OutOfFuel => OutOfFuel
  end.

Definition raise {A} (e : exn) : M A := λ w, Raise e w.

Definition modify (f : World → World) : M unit := λ w, Ok tt (f w).

Definition modify_client (r : ref) (f : Client → Client) : M unit :=
  λ w, Ok tt (set_object r (f (objects w r)) w).

(** [for x in l: body(x)] over a list nobody else can reach. *)
Fixpoint for_each {A} (l : list A) (body : A → M unit) : M unit :=
  match l with
  | [] => mret tt
  | x :: l' => body x ;; for_each l' body
  end.

(** [for c in self.clients: body(c)]: the list iterator keeps an index
    into the live list and stops when the index reaches its current
    length, so removals made by [body] are seen by the loop. *)
Fixpoint for_pool (fuel i : nat) (body : ref → M unit) : M unit :=
  λ w, match pool_clients w !! i with
       | None => Ok tt w
       | Some c =>
           match fuel with
           | 0 => OutOfFuel
           | S fuel' => (body c ;; for_pool fuel' (S i) body) w
           end
       end.

(** ** class ClientPool *)

(** [threading.Lock.acquire()]: blocks while the lock is held. *)
Definition acquire : M unit :=
  λ w, if clients_lock w then Blocked w else Ok tt (set_lock true Acquire w).

(** [threading.Lock.release()] *)
Definition release : M unit :=
  λ w, if clients_lock w then Ok tt (set_lock false Release w)
       else Raise RuntimeError w.

Definition add_client (c : ref) : M unit :=
  acquire ;;
  modify (λ w, set_pool_clients (pool_clients w ++ [c]) w) ;;
  release.

Definition remove_client (c : ref) : M unit :=
  acquire ;;
  modify_client c shutdown ;;
  (λ w, match list_remove c (pool_clients w) with
        | Some l => Ok tt (set_pool_clients l w)
        | None => Raise ValueError w
        end) ;;
  release.

Definition count_tag (d : gmap string nat) (ctag : string) : gmap string nat :=
  match d !! ctag with
  | Some n => <[ctag := n + 1]> d
  | None => <[ctag := 1]> d
  end.

Definition get_tags : M (gmap string nat) :=
  λ w, Ok (foldl (λ d c, foldl count_tag d (tags (objects w c)))
             ∅ (pool_clients w)) w.

(** What [find_clients_by_tag] hands back: the registry's own list object
    (the wildcard branch returns [self.clients] itself, not a copy) or the
    new list built by the comprehension. *)
Inductive found :=
  | PoolList
  | NewList (l : list ref).

Definition has_tag (w : World) (tag : string) (c : ref) : Prop :=
  tag ∈ tags (objects w c).

Global Instance has_tag_dec w tag c : Decision (has_tag w tag c) :=
  decide (tag ∈ tags (objects w c)).

Definition find_clients_by_tag (tag : string) : M found :=
  λ w, let tag := PyStr.strip PyStr.is_quote tag in
       if bool_decide (tag = "*") then Ok PoolList w
       else Ok (NewList (filter (has_tag w tag) (pool_clients w))) w.

Definition get_clients_by_tag (tag : string) : M found :=
  find_clients_by_tag tag.

(** The elements of a [found] value when it is read in state [w]. *)
Definition found_list (w : World) (f : found) : list ref :=
  match f with
  | PoolList => pool_clients w
  | NewList l => l
  end.

(** [for c in f: body(c)].  Over the registry's own list the loop body
    runs at most once per element present at the start (the list does not
    grow during the loops of this program), which bounds the
    iterations. *)
Definition for_found (f : found) (body : ref → M unit) : M unit :=
  match f with
  | NewList l => for_each l body
  | PoolList => λ w, for_pool (length (pool_clients w)) 0 body w
  end.

Definition remove_clients_by_tag (tag : string) : M unit :=
  f ← find_clients_by_tag tag;
  for_found f remove_client.

Definition send_message_by_tag (tag : string) (message : ref) : M unit :=
  f ← find_clients_by_tag tag;
  for_found f (λ c, modify_client c (send message)).

(** ** Constructors that allocate *)

(** [Message(cmd, job_name)] as an expression: the new object's
    reference. *)
Definition new_Message (cmd : string) (jn : option string) : M ref :=
  λ w, match Message_init cmd jn (clock w) with
       | Val m => Ok (next_ref w) (bump_ref (set_message (next_ref w) m w))
       | Exc e => Raise e w
       end.

(** [Client(addr)], the call to [generate_uuid] yielding [u]. *)
Definition Client_init (u a : string) : M ref :=
  λ w, let self := next_ref w in
       let tags0 := initial_tags (default_tag w) u a in
       let commands_to_run :=
         flat_map (λ tag, default [] (autoruns w !! tag)) tags0 in
       (for_each commands_to_run
          (λ cmd, m ← new_Message cmd None; modify_client self (send m)) ;;
        mret self)
         (bump_ref (set_object self (mk_Client true u a [] tags0) w)).

(** ** The response half of [tcp_handler] *)

(** [mkdir] makes the session's directory and nothing below it, and
    [open] makes no directory at all, so the file cannot be created when
    the file system refuses its path: a job name that holds a slash asks
    for a subdirectory nobody makes ([FileNotFoundError]), a directory
    may not be writable.  These are all [OSError]s, raised before
    anything is written. *)
Definition create_outfile (directory : string) (m : Message) : M unit :=
  λ w, let path := directory +:+ "/" +:+ get_fullname m +:+ ".out" in
       if fs_refuses w path then Raise OSError w
       else match results m with
            | Some r => Ok tt (emit (Written path r) w)
            | None => Raise TypeError w
            end.

Definition process_response (c : ref) (m : ref) : M unit :=
  λ w, let self := objects w c in
       let message := messages w m in
       match out_dir w with
       | None =>
           Ok tt (emit (Printed (uuid self) (addr self) (get_fullname message)
                          (results message)) w)
       | Some _ =>
           create_outfile (client_directory (out_dir w) self) message w
       end.

(** One turn of the handler loop for the session [c], [data] being the
    text the bytes of the read loop decode to: take the oldest queued
    message, store the text in it and hand it to [process_response].
    An empty queue is the [queue.Empty] branch: nothing happens. *)
Definition handle_response (c : ref) (data : string) : M unit :=
  λ w, match send_queue (objects w c) with
       | [] => Ok tt w
       | m :: q =>
           (modify_client c (set_send_queue q) ;;
            modify (λ w, set_message m (set_results (messages w m) data) w) ;;
            process_response c m) w
       end.

(** ** Reading a timestamp back *)

(** The number a string of decimal digits denotes. *)
Definition digits_value (s : string) : Z :=
  let fix go (acc : Z) (s : string) : Z :=
    match s with
    | EmptyString => acc
    | String a s' => go (10 * acc + (Z.of_nat (nat_of_ascii a) - 48))%Z s'
    end in
  go 0%Z s.

(** ** Sample states

    Concrete values on which the statements below are evaluated. *)

Module Sample.

Definition t0 : datetime := mk_datetime 2024 3 9 7 5 1.

Definition no_message : Message :=
  mk_Message EmptyString EmptyString None EmptyString.

Definition no_client : Client :=
  mk_Client false EmptyString EmptyString [] [].

(** A freshly started process: no session, nothing configured. *)
Definition start : World :=
  mk_World None ∅ None t0 0 (λ _, no_message) (λ _, no_client)
    false [] [] [] [] (λ _, false).

End Sample.

Module SampleConfig.
Import Sample.

Definition newline : string := String (ascii_of_nat 10) EmptyString.

Definition with_config (dt : option string)
    (autos : gmap string (list string)) : World :=
  mk_World dt autos None t0 0 (λ _, no_message) (λ _, no_client)
    false [] [] [] [] (λ _, false).

(** [settag red] and [settagautos red] with a file of two lines. *)
Definition red : World :=
  with_config (Some "red") {[ "red" := ["whoami"; "id"] ]}.

(** The same, the second line of the file being empty. *)
Definition red_blank_line : World :=
  with_config (Some "red") {[ "red" := ["whoami"; newline] ]}.

(** The default tag happens to equal the uuid drawn next. *)
Definition default_is_uuid : World :=
  with_config (Some "abc12345") ∅.

End SampleConfig.

Module SampleRegistry.
Import Sample.

Definition A : Client :=
  mk_Client true "abc12345" "10.0.0.5" []
    ["abc12345"; "10.0.0.5"; "web"].

Definition B : Client :=
  mk_Client true "zzz98765" "10.0.0.6" []
    ["zzz98765"; "10.0.0.6"; "web"].

Definition echo_hi : Message :=
  mk_Message "echo hi" "20240309070501" None "echo".

(** Two sessions, objects 0 and 1, both tagged [web] and registered;
    object 2 is the message of [run web echo hi]. *)
Definition two_web : World :=
  mk_World None ∅ None t0 3
    (update (λ _, no_message) 2 echo_hi)
    (update (update (λ _, no_client) 0 A) 1 B)
    false [0; 1] [] [] [] (λ _, false).

(** The same while another caller holds the registry lock. *)
Definition two_web_locked : World :=
  mk_World None ∅ None t0 3
    (update (λ _, no_message) 2 echo_hi)
    (update (update (λ _, no_client) 0 A) 1 B)
    true [0; 1] [Acquire] [] [OnLock Acquire] (λ _, false).

(** The tag argument the shell passes for [run 'web' ...]: the quotes
    are part of the token. *)
Definition quoted_web : string := "'web'".

End SampleRegistry.

(** ** Predicates used in the statements *)

(** What a computation leaves alone. *)
Definition same_config (w w' : World) : Prop :=
  default_tag w' = default_tag w ∧ autoruns w' = autoruns w
  ∧ out_dir w' = out_dir w ∧ clock w' = clock w.

Definition same_registry (w w' : World) : Prop :=
  pool_clients w' = pool_clients w ∧ clients_lock w' = clients_lock w
  ∧ lock_log w' = lock_log w.

(** The invariant of a session's tag list. *)
Definition tags_anchored (c : Client) : Prop :=
  uuid c ∈ tags c ∧ addr c ∈ tags c.

(** The texts the autorun table lists for a tag list, in tag order. *)
Definition autorun_texts (w : World) (tags0 : list string) : list string :=
  flat_map (λ tag, default [] (autoruns w !! tag)) tags0.

Ltac run :=
  unfold mbind, M_bind, mret, M_ret, modify, modify_client, raise; simpl.

(** Removing the elements of [xs] one after the other, as the loop of
    [remove_clients_by_tag] does over a list of its own. *)
Fixpoint list_remove_all `{EqDecision A} (xs l : list A) : option (list A) :=
  match xs with
  | [] => Some l
  | x :: xs' =>
      match list_remove x l with
      | Some l' => list_remove_all xs' l'
      | None => None
      end
  end.

(** The sessions [find_clients_by_tag] selects in state [w]. *)
Definition matching (w : World) (tag : string) : list ref :=
  match find_clients_by_tag tag w with
  | Ok f _ => found_list w f
  | _ => []
  end.

(** How often the reference [c] occurs in a list. *)
Definition occurrences (c : ref) (l : list ref) : nat :=
  length (filter (λ r, r = c) l).

(** The state after [send] has been called with [m] on every element of
    [l] in turn. *)
Definition sent_to (m : ref) (l : list ref) (w : World) : World :=
  foldl (λ w c, set_object c (send m (objects w c)) w) w l.

(** What [process_response] emits for the session [self] and the message
    [message]. *)
Definition delivery (w : World) (self : Client) (message : Message) : output :=
  match out_dir w with
  | None =>
      Printed (uuid self) (addr self) (get_fullname message) (results message)
  | Some d =>
      Written (client_directory (Some d) self +:+ "/"
               +:+ get_fullname message +:+ ".out")
        (default EmptyString (results message))
  end.

(** The state [remove_client] reaches before it looks for the session in
    the list: lock taken, session shut down. *)
Definition remove_client_entered (c : ref) (w : World) : World :=
  set_object c (shutdown (objects w c)) (set_lock true Acquire w).

(** An operation runs under the registry lock from start to end: while
    another caller holds the lock it waits; with the lock free, when it
    returns, what it has done to the registry is to acquire the lock,
    then change the list (any number of times), then release the lock,
    in this order, which leaves the lock free. *)
Definition takes_lock {A} (op : M A) : Prop :=
  ∀ w, if clients_lock w then op w = Blocked w
       else ∀ a w', op w = Ok a w' →
                    (∃ k, pool_trace w' =
                            pool_trace w
                            ++ OnLock Acquire :: replicate k ListWrite
                            ++ [OnLock Release])
                    ∧ clients_lock w' = false.

(** One removal as the registry sees it. *)
Definition one_removal : list pool_event :=
  [OnLock Acquire; ListWrite; OnLock Release].

(** Whether the file system lets [process_response] deliver the message
    [message] of the session [self]: printing needs no file. *)
Definition deliverable (w : World) (self : Client) (message : Message) : bool :=
  match out_dir w with
  | None => true
  | Some d =>
      negb (fs_refuses w (client_directory (Some d) self +:+ "/"
                          +:+ get_fullname message +:+ ".out"))
  end.


(** The strings [generate_uuid] can return: eight characters, each a
    lowercase letter or a digit. *)
Definition is_uuid (u : string) : bool :=
  (String.length u =? 8)%nat
  && PyStr.forallb
       (λ a, let n := nat_of_ascii a in
             ((97 <=? n) && (n <=? 122) || (48 <=? n) && (n <=? 57))%nat) u.

(** ** The connection handler

    The remaining steps of [tcp_handler], the network being replaced by
    what it reports: whether the transport has lost the connection and,
    once a command has been written, what the read loop collects or
    whether the connection is reset. *)

(** The first lines of [tcp_handler]: [client = Client(addr[0])], then
    [clients.add_client(client)]. *)
Definition accept (u a : string) : M ref :=
  client ← Client_init u a;
  add_client client ;;
  mret client.

(** What happens once a command has been written: the read loop collects
    bytes that decode to the text [data], the connection is reset, or
    the bytes collected are not UTF-8. *)
Inductive peer :=
  | Answers (data : string)
  | Resets
  | Garbles.

(** How one pass through the [while] loop ends: the loop goes on without
    a command having been taken, it is left (and the streams are
    closed), the handler returns from inside the loop, or the loop goes
    on after the response to a command has been read and handed to
    [process_response]. *)
Inductive turn := Continue | Closed | Returned | Delivered.

(** One pass.  The command is taken from the queue before anything is
    written or read, so it is gone when the pass ends in an exception:
    [ConnectionResetError] is caught and ends the handler,
    [UnicodeDecodeError] from [data.decode()] is not caught, and neither
    is what [process_response] raises. *)
Definition handler_turn (c : ref) (conn_lost : bool) (p : peer) : M turn :=
  λ w, if keep_alive (objects w c) then
         if conn_lost then (remove_client c ;; mret Closed) w
         else match send_queue (objects w c) with
              | [] => Ok Continue w
              | m :: q =>
                  match p with
                  | Answers data =>
                      (handle_response c data ;; mret Delivered) w
                  | Resets =>
                      (modify_client c (set_send_queue q) ;;
                       remove_client c ;;
                       mret Returned) w
                  | Garbles =>
                      (modify_client c (set_send_queue q) ;;
                       raise UnicodeDecodeError) w
                  end
              end
       else Ok Closed w.

(** What the read loop collects when the peer does [p], for a reader
    that has ([eof]) or has not been fed the end of the stream.  The
    read loop calls [reader.feed_eof()] after its first [read]; from
    then on the reader takes no more bytes and every [read] returns the
    empty bytes at once, whatever the peer sends. *)
Definition collected (eof : bool) (p : peer) : peer :=
  if eof then
    match p with
    | Resets => Resets
    | _ => Answers EmptyString
    end
  else p.

(** The loop run against a script of network reports, one per pass; an
    exhausted script leaves the loop running.  [eof] is the state of the
    handler's reader, set by the first pass that reads. *)
Fixpoint handler_passes (eof : bool) (c : ref) (script : list (bool * peer))
    : M turn :=
  match script with
  | [] => mret Continue
  | (conn_lost, p) :: script' =>
      t ← handler_turn c conn_lost (collected eof p);
      match t with
      | Continue => handler_passes eof c script'
      | Delivered => handler_passes true c script'
      | _ => mret t
      end
  end.

(** The handler of a new connection: its reader is new. *)
Definition handler_loop (c : ref) (script : list (bool * peer)) : M turn :=
  handler_passes false c script.

(** ** class ShellSherpa

    The commands of the operator shell.  Each takes the list of tokens
    [shlex] cuts its argument line into; the console keeps the prompt and
    the lines printed. *)

Record Console := mk_Console {
  prompt : string;
  printed : list string
}.

Definition print (line : string) (sh : Console) : Console :=
  mk_Console (prompt sh) (printed sh ++ [line]).

Definition set_prompt (p : string) (sh : Console) : Console :=
  mk_Console p (printed sh).

Definition set_default_tag (dt : option string) (w : World) : World :=
  mk_World dt (autoruns w) (out_dir w) (clock w) (next_ref w)
    (messages w) (objects w) (clients_lock w) (pool_clients w) (lock_log w)
    (outputs w) (pool_trace w) (fs_refuses w).

Definition set_autoruns (a : gmap string (list string)) (w : World) : World :=
  mk_World (default_tag w) a (out_dir w) (clock w) (next_ref w)
    (messages w) (objects w) (clients_lock w) (pool_clients w) (lock_log w)
    (outputs w) (pool_trace w) (fs_refuses w).

(** [parsed_args[0]] *)
Definition first_arg (parsed_args : list string) : M string :=
  λ w, match parsed_args with
       | x :: _ => Ok x w
       | [] => Raise IndexError w
       end.

(** [sep.join(l)] *)
Definition join (sep : string) (l : list string) : string :=
  match l with
  | [] => EmptyString
  | x :: l' => foldl (λ acc y, acc +:+ sep +:+ y) x l'
  end.

Definition do_run (parsed_args : list string) : M unit :=
  tag ← first_arg parsed_args;
  new_msg ← new_Message (join " " (tail parsed_args)) None;
  send_message_by_tag tag new_msg.

Definition do_settag (parsed_args : list string) (sh : Console) : M Console :=
  tag ← first_arg parsed_args;
  match tag with
  | EmptyString =>
      modify (set_default_tag None) ;; mret (set_prompt "> " sh)
  | _ =>
      modify (set_default_tag (Some tag)) ;;
      mret (set_prompt (tag +:+ "> ") sh)
  end.

Definition do_addtag (split_args : list string) (sh : Console) : M Console :=
  match split_args with
  | [search_tag; tag_to_add] =>
      f ← find_clients_by_tag search_tag;
      for_found f (λ c, modify_client c (add_tag tag_to_add)) ;;
      mret sh
  | _ =>
      mret (print "[-] Must provide 2 arguments. Search tag, and new tag" sh)
  end.

(** [c.remove_tag(tag)] on the object [c]. *)
Definition client_remove_tag (tag : string) (c : ref) : M unit :=
  λ w, match remove_tag tag (objects w c) with
       | Val c' => Ok tt (set_object c c' w)
       | Exc e => Raise e w
       end.

Definition do_removetag (split_args : list string) (sh : Console)
  : M Console :=
  match split_args with
  | [search_tag; tag_to_remove] =>
      f ← find_clients_by_tag search_tag;
      for_found f (client_remove_tag tag_to_remove) ;;
      mret sh
  | _ =>
      mret (print "[-] Must provide 2 arguments. Search tag, and tag to remove"
              sh)
  end.

(** [settagautos]: [files] gives, for each path that can be opened and
    read, the lines [readlines] returns; any failure is the [except]
    branch. *)
Definition do_settagautos (files : gmap string (list string))
    (split_args : list string) (sh : Console) : M Console :=
  match split_args with
  | [tag; autoruns_file] =>
      let tag := PyStr.strip PyStr.is_quote tag in
      if bool_decide (autoruns_file = "none") then
        modify (λ w, set_autoruns (<[tag := []]> (autoruns w)) w) ;; mret sh
      else
        match files !! autoruns_file with
        | Some lines =>
            modify (λ w, set_autoruns (<[tag := lines]> (autoruns w)) w) ;;
            mret sh
        | None => mret (print "[-] Issue with provided file" sh)
        end
  | _ => mret (print "[-] Must provide 2 arguments. tag and valid file" sh)
  end.

Definition do_disconnect (parsed_args : list string) : M unit :=
  tag ← first_arg parsed_args;
  remove_clients_by_tag tag.


(** Tags other than the uuid and the address occur at most once. *)
Definition free_tags_once (c : Client) : Prop :=
  NoDup (filter (λ t, t ≠ uuid c ∧ t ≠ addr c) (tags c)).

(** How often the tag [t] occurs in the tag lists of the registered
    sessions, a session registered twice counting twice. *)
Definition tag_count (w : World) (t : string) : nat :=
  sum_list ((λ c, length (filter (λ x, x = t) (tags (objects w c))))
            <$> pool_clients w).

(** A counter entry after [n] more increments. *)
Definition bumped (o : option nat) (n : nat) : option nat :=
  match n with
  | 0 => o
  | S _ => Some (default 0 o + n)
  end.

(** The state after the method [f] has been called on every element of
    [l] in turn. *)
Definition mapped (f : Client → Client) (l : list ref) (w : World) : World :=
  foldl (λ w c, set_object c (f (objects w c)) w) w l.

(** The session [remove_tag] leaves behind. *)
Definition removed (tag : string) (c : Client) : Client :=
  match remove_tag tag c with
  | Val c' => c'
  | Exc _ => c
  end.

Module SampleSession.
Import Sample.

Definition whoami : Message :=
  mk_Message "whoami" "20240309070501" None "whoami".

Definition id_cmd : Message :=
  mk_Message "id" "20240309070501" None "id".

Definition client : Client :=
  mk_Client true "abc12345" "10.0.0.5" [1; 2]
    ["abc12345"; "10.0.0.5"; "red"].

(** One accepted connection, object 0, with the two autorun commands of
    tag [red] (objects 1 and 2) waiting in its queue. *)
Definition connected : World :=
  mk_World (Some "red") {[ "red" := ["whoami"; "id"] ]} None t0 3
    (update (update (λ _, no_message) 1 whoami) 2 id_cmd)
    (update (λ _, no_client) 0 client)
    false [0] [Acquire; Release] []
    [OnLock Acquire; ListWrite; OnLock Release] (λ _, false).

(** A command whose job name, its first word, holds slashes. *)
Definition bin_ls : Message :=
  mk_Message "/bin/ls -l" "20240309070501" None "/bin/ls".

(** The same session writing to the directory [out], with the command
    [bin_ls] (object 1) queued: the file asked for lies in a
    subdirectory [bin] of the session's directory, which nothing makes,
    so the file system refuses it. *)
Definition to_files : World :=
  mk_World None ∅ (Some "out") t0 2
    (update (λ _, no_message) 1 bin_ls)
    (update (λ _, no_client) 0
       (mk_Client true "abc12345" "10.0.0.5" [1] ["abc12345"; "10.0.0.5"]))
    false [0] [Acquire; Release] []
    [OnLock Acquire; ListWrite; OnLock Release]
    (λ path,
       bool_decide
         (path = "out/10.0.0.5_abc12345//bin/ls.20240309070501.out")).

End SampleSession.

(** * Properties *)

(** ** Strings *)

Section string_facts.

Lemma string_length_app (s t : string) :
  String.length (s +:+ t) = String.length s + String.length t.
Proof. induction s as [|a s IH]; simpl; [done | by f_equal]. Qed.

(** Cancelling a common suffix. *)
Lemma string_app_inj_r (t s1 s2 : string) : s1 +:+ t = s2 +:+ t → s1 = s2.
Proof.
  revert s2. induction s1 as [|a s1 IH]; intros [|b s2] E; simpl in E.
  - done.
  - apply (f_equal String.length) in E.
    rewrite !string_length_app in E. simpl in E. lia.
  - apply (f_equal String.length) in E.
    rewrite !string_length_app in E. simpl in E. lia.
  - injection E as -> E. f_equal. by apply IH.
Qed.

Lemma split_nil_blank (s : string) : PyStr.split s = [] → PyStr.blank s = true.
Proof.
  unfold PyStr.blank.
  induction s as [|a s IH]; simpl; [done|].
  destruct (PyStr.isspace a); simpl; [exact IH|].
  destruct s as [|b s]; [done|].
  destruct (PyStr.isspace b); [done|].
  by destruct (PyStr.split (String b s)).
Qed.

Lemma blank_split_nil (s : string) : PyStr.blank s = true → PyStr.split s = [].
Proof.
  unfold PyStr.blank.
  induction s as [|a s IH]; simpl; [done|].
  destruct (PyStr.isspace a); simpl; [exact IH | done].
Qed.

(** The first element of [split]: the text is leading whitespace, then
    the token, which is not empty and holds no whitespace, then either
    nothing or something that starts with whitespace. *)
Lemma split_head (s tok : string) (r : list string) :
  PyStr.split s = tok :: r →
  ∃ ws rest, s = ws +:+ tok +:+ rest
    ∧ PyStr.blank ws = true
    ∧ tok ≠ EmptyString
    ∧ PyStr.forallb (λ a, negb (PyStr.isspace a)) tok = true
    ∧ PyStr.starts_with_space rest = true.
Proof.
  revert tok r. induction s as [|a s IH]; intros tok r; simpl; [done|].
  destruct (PyStr.isspace a) eqn:Ha.
  - intros Hs. destruct (IH _ _ Hs) as (ws & rest & -> & Hws & Hne & Htok & Hr).
    exists (String a ws), rest. unfold PyStr.blank in *. simpl. rewrite Ha. done.
  - destruct s as [|b s].
    { intros [= <- <-]. exists EmptyString, EmptyString. simpl. by rewrite Ha. }
    destruct (PyStr.isspace b) eqn:Hb.
    { intros [= <- <-]. exists EmptyString, (String b s). simpl. by rewrite Ha, Hb. }
    destruct (PyStr.split (String b s)) as [|tok' r'] eqn:Hs.
    { apply split_nil_blank in Hs. unfold PyStr.blank in Hs. simpl in Hs.
      by rewrite Hb in Hs. }
    intros [= <- <-].
    destruct (IH _ _ eq_refl) as (ws & rest & E & Hws & Hne & Htok & Hr).
    destruct ws as [|x ws].
    + simpl in E. exists EmptyString, rest. simpl. rewrite Ha, E. done.
    + unfold PyStr.blank in Hws. simpl in E, Hws. injection E as <- _.
      by rewrite Hb in Hws.
Qed.

Lemma is_digit_digit (n : Z) : (0 ≤ n < 10)%Z → is_digit (digit n) = true.
Proof.
  intros Hn. unfold is_digit, digit.
  rewrite nat_ascii_embedding by lia.
  apply andb_true_intro; split; apply Nat.leb_le; lia.
Qed.

Lemma fmt2_digits (n : Z) :
  (0 ≤ n < 100)%Z → PyStr.forallb is_digit (fmt2 n) = true.
Proof.
  intros Hn. unfold fmt2. simpl.
  rewrite !is_digit_digit; [done | |].
  - apply Z.mod_pos_bound. lia.
  - split; [apply Z.div_pos; lia | apply Z.div_lt_upper_bound; lia].
Qed.

Lemma fmtY_digits (n : Z) :
  (1000 ≤ n ≤ 9999)%Z → PyStr.forallb is_digit (fmtY n) = true.
Proof.
  intros Hn. unfold fmtY. simpl.
  rewrite !is_digit_digit; [done | | | |].
  - apply Z.mod_pos_bound. lia.
  - apply Z.mod_pos_bound. lia.
  - apply Z.mod_pos_bound. lia.
  - split; [apply Z.div_pos; lia | apply Z.div_lt_upper_bound; lia].
Qed.

Lemma string_forallb_app p (s t : string) :
  PyStr.forallb p (s +:+ t) = PyStr.forallb p s && PyStr.forallb p t.
Proof.
  induction s as [|a s IH]; simpl; [done|]. by rewrite IH, andb_assoc.
Qed.

Lemma generate_timestamp_length (now : datetime) :
  String.length (generate_timestamp now) = 14.
Proof. reflexivity. Qed.

Lemma generate_timestamp_digits (now : datetime) :
  valid_datetime now → PyStr.forallb is_digit (generate_timestamp now) = true.
Proof.
  intros (Hy & Hm & Hd & Hh & Hmi & Hs). unfold generate_timestamp.
  rewrite !string_forallb_app, fmtY_digits by done.
  rewrite !fmt2_digits by lia. done.
Qed.

End string_facts.

(** ** Message *)

(** With no usable job name the first token is needed, and a blank text
    has none. *)
Lemma Message_init_blank (cmd : string) (jn : option string) (now : datetime) :
  truthy jn = false → PyStr.blank cmd = true →
  Message_init cmd jn now = Exc IndexError.
Proof.
  intros Hjn Hb. unfold Message_init. rewrite Hjn.
  by rewrite (blank_split_nil _ Hb).
Qed.

(** C10.  A command text that is empty or all whitespace, given without a
    job name, does not yield a [Message]: [split] finds no token and the
    constructor raises [IndexError]. *)
Theorem Message_init_blank_raises (cmd : string) (now : datetime) :
  PyStr.blank cmd = true →
  Message_init cmd None now = Exc IndexError
  ∧ ∀ m, Message_init cmd None now ≠ Val m.
Proof.
  intros Hb. rewrite (Message_init_blank cmd None now eq_refl Hb). done.
Qed.

Lemma Message_init_blank_raises_witness :
  PyStr.blank "   " = true
  ∧ Message_init "   " None Sample.t0 = Exc IndexError.
Proof.
  split; [reflexivity | apply (Message_init_blank_raises "   "); reflexivity].
Defined.

(** The constructor fails in no other case. *)
Lemma Message_init_nonblank (cmd : string) (jn : option string) (now : datetime) :
  PyStr.blank cmd = false → ∃ m, Message_init cmd jn now = Val m.
Proof.
  intros Hb. unfold Message_init. destruct (truthy jn); [eauto|].
  destruct (PyStr.split cmd) eqn:Hs; [|eauto].
  apply split_nil_blank in Hs. congruence.
Qed.

Lemma Message_init_timestamp cmd jn now m :
  Message_init cmd jn now = Val m → timestamp m = generate_timestamp now.
Proof.
  unfold Message_init. destruct (truthy jn); [by intros [= <-]|].
  destruct (PyStr.split cmd); [done | by intros [= <-]].
Qed.

Lemma Message_init_command cmd jn now m :
  Message_init cmd jn now = Val m → command m = cmd ∧ results m = None.
Proof.
  unfold Message_init. destruct (truthy jn); [by intros [= <-]|].
  destruct (PyStr.split cmd); [done | by intros [= <-]].
Qed.

Lemma generate_timestamp_value (now : datetime) :
  valid_datetime now →
  digits_value (generate_timestamp now) =
    (year now * 10000000000 + month now * 100000000 + day now * 1000000
     + hour now * 10000 + minute now * 100 + second now)%Z.
Proof.
  intros (Hy & Hm & Hd & Hh & Hmi & Hs).
  unfold generate_timestamp, fmtY, fmt2, digits_value, digit. simpl.
  rewrite !nat_ascii_embedding.
  all: try (apply Nat2Z.inj_lt; rewrite Z2Nat.id; [|Z.div_mod_to_equations; lia];
            Z.div_mod_to_equations; lia).
  rewrite !Z2Nat.id by (Z.div_mod_to_equations; lia).
  Z.div_mod_to_equations. lia.
Qed.

(** C8.  A [Message] built when the clock shows [now] has the full name
    job name, dot, timestamp; the timestamp is fourteen decimal digits that
    read year, month, day, hour, minute, second; a job name that is given
    (and not empty) is kept, otherwise it is the first whitespace-delimited
    token of the command text; with job name [echo] the full name is
    [echo.] followed by the fourteen digits; and a message built in the
    same second under another job name has another full name. *)
Theorem Message_fullname_format
    (now : datetime) (cmd : string) (jn : option string) (m : Message) :
  valid_datetime now →
  Message_init cmd jn now = Val m →
  get_fullname m = job_name m +:+ "." +:+ timestamp m
  ∧ timestamp m = generate_timestamp now
  ∧ String.length (timestamp m) = 14
  ∧ PyStr.forallb is_digit (timestamp m) = true
  ∧ digits_value (timestamp m) =
      (year now * 10000000000 + month now * 100000000 + day now * 1000000
       + hour now * 10000 + minute now * 100 + second now)%Z
  ∧ (truthy jn = true → jn = Some (job_name m))
  ∧ (truthy jn = false →
       ∃ ws rest, cmd = ws +:+ job_name m +:+ rest
         ∧ PyStr.blank ws = true
         ∧ job_name m ≠ EmptyString
         ∧ PyStr.forallb (λ a, negb (PyStr.isspace a)) (job_name m) = true
         ∧ PyStr.starts_with_space rest = true)
  ∧ (job_name m = "echo" →
       get_fullname m = "echo." +:+ generate_timestamp now)
  ∧ (∀ cmd' jn' m',
       Message_init cmd' jn' now = Val m' →
       job_name m' ≠ job_name m →
       get_fullname m' ≠ get_fullname m).
Proof.
  intros Hnow Hm.
  pose proof (Message_init_timestamp _ _ _ _ Hm) as Hts.
  split; [done|]. split; [done|]. rewrite Hts.
  split; [apply generate_timestamp_length|].
  split; [by apply generate_timestamp_digits|].
  split; [by apply generate_timestamp_value|].
  repeat split.
  - intros Ht. unfold Message_init in Hm. rewrite Ht in Hm.
    injection Hm as <-. simpl. destruct jn as [[|a j]|]; done.
  - intros Ht. unfold Message_init in Hm. rewrite Ht in Hm.
    destruct (PyStr.split cmd) as [|tok r] eqn:Hs; [done|].
    injection Hm as <-. simpl. by eapply split_head.
  - intros Hj. unfold get_fullname. by rewrite Hj, Hts.
  - intros cmd' jn' m' Hm' Hne E. apply Hne.
    unfold get_fullname in E.
    rewrite (Message_init_timestamp _ _ _ _ Hm'), Hts in E.
    change (job_name m' +:+ ("." +:+ generate_timestamp now)
            = job_name m +:+ ("." +:+ generate_timestamp now)) in E.
    by apply string_app_inj_r in E.
Qed.

Lemma Message_fullname_format_witness :
  valid_datetime Sample.t0
  ∧ Message_init "echo hi" None Sample.t0
    = Val (mk_Message "echo hi" "20240309070501" None "echo")
  ∧ get_fullname (mk_Message "echo hi" "20240309070501" None "echo")
    = "echo." +:+ generate_timestamp Sample.t0.
Proof.
  assert (Hv : valid_datetime Sample.t0) by (unfold valid_datetime; simpl; lia).
  split; [exact Hv|]. split; [reflexivity|].
  apply (Message_fullname_format Sample.t0 "echo hi" None _ Hv eq_refl).
  reflexivity.
Defined.

(** ** Lists *)

Section list_remove_facts.
Context `{EqDecision A}.
Implicit Types (x y : A) (l : list A).

Lemma list_remove_elem x l : x ∈ l → is_Some (list_remove x l).
Proof.
  induction l as [|y l IH]; [by intros ?%elem_of_nil|].
  intros Hx. simpl. destruct (decide (y = x)) as [->|Hne]; [eauto|].
  apply elem_of_cons in Hx as [->|Hx]; [done|].
  by destruct (IH Hx) as [r ->].
Qed.

Lemma list_remove_not_elem x l : x ∉ l → list_remove x l = None.
Proof.
  induction l as [|y l IH]; [done|].
  intros Hx. apply not_elem_of_cons in Hx as [Hne Hx]. simpl.
  destruct (decide (y = x)); [congruence|]. by rewrite IH.
Qed.

(** Elements other than the removed one are kept. *)
Lemma list_remove_other x y l l' :
  list_remove x l = Some l' → y ≠ x → y ∈ l' ↔ y ∈ l.
Proof.
  revert l'. induction l as [|z l IH]; intros l'; simpl; [done|].
  destruct (decide (z = x)) as [->|Hne].
  - intros [= <-] Hy. rewrite elem_of_cons.
    split; [by right | intros [?|?]; [congruence | done]].
  - destruct (list_remove x l) as [r|]; [|done].
    intros [= <-] Hy. rewrite !elem_of_cons, (IH r eq_refl Hy). done.
Qed.

Lemma list_remove_NoDup x l l' :
  list_remove x l = Some l' → NoDup l → NoDup l' ∧ x ∉ l'.
Proof.
  revert l'. induction l as [|z l IH]; intros l'; simpl; [done|].
  destruct (decide (z = x)) as [->|Hne].
  - intros [= <-] [Hx Hl]%NoDup_cons. done.
  - destruct (list_remove x l) as [r|] eqn:Hr; [|done].
    intros [= <-] [Hz Hl]%NoDup_cons.
    destruct (IH r eq_refl Hl) as [Hnd Hx]. split.
    + apply NoDup_cons. split; [|done].
      by rewrite (list_remove_other x z l r Hr Hne).
    + rewrite not_elem_of_cons. split; [congruence | done].
Qed.

Lemma list_remove_length x l l' :
  list_remove x l = Some l' → length l = S (length l').
Proof.
  revert l'. induction l as [|z l IH]; intros l'; simpl; [done|].
  destruct (decide (z = x)); [by intros [= <-]|].
  destruct (list_remove x l) as [r|]; [|done].
  intros [= <-]. simpl. by rewrite (IH r).
Qed.

End list_remove_facts.

(** ** Client: tags *)

Lemma add_tag_fields tag c :
  uuid (add_tag tag c) = uuid c ∧ addr (add_tag tag c) = addr c
  ∧ keep_alive (add_tag tag c) = keep_alive c
  ∧ send_queue (add_tag tag c) = send_queue c.
Proof. unfold add_tag. by case_bool_decide. Qed.

Lemma add_tag_elem tag c t : t ∈ tags c → t ∈ tags (add_tag tag c).
Proof.
  unfold add_tag. case_bool_decide; [done|]. simpl.
  intros Ht. apply elem_of_app. by left.
Qed.

(** [add_tag] leaves a session that already holds the tag as it is. *)
Lemma add_tag_present tag c : tag ∈ tags c → add_tag tag c = c.
Proof. intros Ht. unfold add_tag. by rewrite bool_decide_eq_true_2. Qed.

Lemma add_tag_absent tag c :
  tag ∉ tags c → tags (add_tag tag c) = tags c ++ [tag].
Proof. intros Ht. unfold add_tag. by rewrite bool_decide_eq_false_2. Qed.

(** [add_tag] never introduces a repetition. *)
Lemma add_tag_NoDup tag c : NoDup (tags c) → NoDup (tags (add_tag tag c)).
Proof.
  intros Hnd. unfold add_tag. case_bool_decide as Ht; [done|]. simpl.
  apply NoDup_app. split; [done|]. split.
  - intros x Hx ->%list_elem_of_singleton. done.
  - apply NoDup_singleton.
Qed.

(** [remove_tag] never raises: the removal is guarded by the membership
    test. *)
Lemma remove_tag_total tag c : ∃ c', remove_tag tag c = Val c'.
Proof.
  unfold remove_tag. case_bool_decide as Ht; simpl; [|eauto].
  destruct (list_remove_elem tag (tags c) Ht) as [l ->].
  destruct (_ && _); eauto.
Qed.

Lemma remove_tag_fields tag c c' :
  remove_tag tag c = Val c' →
  uuid c' = uuid c ∧ addr c' = addr c ∧ keep_alive c' = keep_alive c
  ∧ send_queue c' = send_queue c.
Proof.
  unfold remove_tag. destruct (_ && _); [|by intros [= <-]].
  destruct (list_remove tag (tags c)); [by intros [= <-] | done].
Qed.

(** Removing the uuid or the address changes nothing. *)
Lemma remove_tag_uuid c : remove_tag (uuid c) c = Val c.
Proof.
  unfold remove_tag.
  rewrite (bool_decide_eq_false_2 (uuid c ≠ uuid c)) by (intros H; by apply H).
  by rewrite andb_false_r.
Qed.

Lemma remove_tag_addr c : remove_tag (addr c) c = Val c.
Proof.
  unfold remove_tag.
  rewrite (bool_decide_eq_false_2 (addr c ≠ addr c)) by (intros H; by apply H).
  by rewrite andb_false_r.
Qed.

Lemma remove_tag_keeps tag c c' t :
  remove_tag tag c = Val c' →
  t = uuid c ∨ t = addr c → t ∈ tags c → t ∈ tags c'.
Proof.
  unfold remove_tag.
  destruct (bool_decide (tag ∈ tags c)) eqn:Hin; simpl; [|by intros [= <-]].
  destruct (bool_decide (tag ≠ uuid c)) eqn:Hu; simpl; [|by intros [= <-]].
  destruct (bool_decide (tag ≠ addr c)) eqn:Ha; simpl; [|by intros [= <-]].
  apply bool_decide_eq_true in Hu, Ha.
  destruct (list_remove tag (tags c)) as [l|] eqn:Hl; [|done].
  intros [= <-] Ht Hmem. simpl.
  apply (list_remove_other tag t _ _ Hl); [|done].
  destruct Ht; congruence.
Qed.

Lemma remove_tag_NoDup tag c c' :
  remove_tag tag c = Val c' → NoDup (tags c) → NoDup (tags c').
Proof.
  unfold remove_tag. destruct (_ && _); [|by intros [= <-]].
  destruct (list_remove tag (tags c)) as [l|] eqn:Hl; [|done].
  intros [= <-] Hnd. simpl. by destruct (list_remove_NoDup _ _ _ Hl Hnd).
Qed.


Lemma run_tag_ops_anchored ops c :
  tags_anchored c →
  ∃ c', run_tag_ops ops c = Val c'
    ∧ uuid c' = uuid c ∧ addr c' = addr c ∧ tags_anchored c'.
Proof.
  revert c. induction ops as [|[t|t] ops IH]; intros c [Hu Ha]; simpl.
  - by exists c.
  - destruct (add_tag_fields t c) as (Eu & Ea & _).
    destruct (IH (add_tag t c)) as (c' & -> & Eu' & Ea' & Hc').
    { split; [rewrite Eu | rewrite Ea]; by apply add_tag_elem. }
    exists c'. rewrite Eu', Ea'. done.
  - destruct (remove_tag_total t c) as [c1 Hc1]. rewrite Hc1.
    destruct (remove_tag_fields _ _ _ Hc1) as (Eu & Ea & _).
    destruct (IH c1) as (c' & -> & Eu' & Ea' & Hc').
    { split; [rewrite Eu | rewrite Ea];
        eapply remove_tag_keeps; eauto. }
    exists c'. rewrite Eu', Ea'. done.
Qed.

Lemma run_tag_ops_NoDup ops c c' :
  run_tag_ops ops c = Val c' → NoDup (tags c) → NoDup (tags c').
Proof.
  revert c. induction ops as [|[t|t] ops IH]; intros c; simpl.
  - by intros [= <-].
  - intros H Hnd. eapply IH; [done|]. by apply add_tag_NoDup.
  - destruct (remove_tag t c) as [c1|] eqn:Hc1; [|done].
    intros H Hnd. eapply IH; [done|]. by eapply remove_tag_NoDup.
Qed.

(** ** Running computations *)


Lemma bind_Ok {A B} (m : M A) (k : A → M B) w a w' :
  m w = Ok a w' → (m ≫= k) w = k a w'.
Proof. intros H. unfold mbind, M_bind. by rewrite H. Qed.

Lemma bind_Raise {A B} (m : M A) (k : A → M B) w e w' :
  m w = Raise e w' → (m ≫= k) w = Raise e w'.
Proof. intros H. unfold mbind, M_bind. by rewrite H. Qed.

Lemma bind_Blocked {A B} (m : M A) (k : A → M B) w w' :
  m w = Blocked w' → (m ≫= k) w = Blocked w'.
Proof. intros H. unfold mbind, M_bind. by rewrite H. Qed.

Lemma update_eq {A} (f : ref → A) r x : update f r x r = x.
Proof. unfold update. by rewrite decide_True. Qed.

Lemma update_ne {A} (f : ref → A) r r' x : r' ≠ r → update f r x r' = f r'.
Proof. intros H. unfold update. by rewrite decide_False. Qed.


(** ** Client: construction *)

(** The autorun loop of [Client.__init__] on texts none of which is
    blank: one new message per text, appended to the queue of [self] in
    order. *)
Lemma autorun_loop_ok (self : ref) (cmds : list string) (w : World) :
  Forall (λ cmd, PyStr.blank cmd = false) cmds →
  ∃ w',
    for_each cmds
      (λ cmd, m ← new_Message cmd None; modify_client self (send m)) w
    = Ok tt w'
    ∧ next_ref w' = next_ref w + length cmds
    ∧ objects w' self =
        set_send_queue (send_queue (objects w self)
                        ++ seq (next_ref w) (length cmds)) (objects w self)
    ∧ (∀ r, r ≠ self → objects w' r = objects w r)
    ∧ (∀ i cmd, cmds !! i = Some cmd →
         Message_init cmd None (clock w) = Val (messages w' (next_ref w + i)))
    ∧ (∀ r, r < next_ref w → messages w' r = messages w r)
    ∧ same_config w w' ∧ same_registry w w' ∧ outputs w' = outputs w.
Proof.
  revert w. induction cmds as [|cmd cmds IH]; intros w Hnb.
  - exists w. simpl. rewrite Nat.add_0_r, app_nil_r.
    repeat split; try done. by destruct (objects w self).
  - apply Forall_cons in Hnb as [Hcmd Hnb].
    destruct (Message_init_nonblank cmd None (clock w) Hcmd) as [m Hm].
    set (n := next_ref w).
    set (w1 := bump_ref (set_message n m w)).
    set (w2 := set_object self (send n (objects w1 self)) w1).
    destruct (IH w2 Hnb)
      as (w' & Hrun & Hnext & Hself & Hother & Hmsg & Hold & Hcfg & Hreg & Hout).
    exists w'. split.
    { simpl. unfold mbind at 1, M_bind at 1.
      unfold mbind at 1, M_bind at 1, new_Message. rewrite Hm.
      unfold modify_client. exact Hrun. }
    split; [rewrite Hnext; simpl; lia|].
    split.
    { rewrite Hself. simpl. rewrite update_eq. simpl.
      unfold set_send_queue. simpl. by rewrite <- app_assoc. }
    split.
    { intros r Hr. rewrite (Hother r Hr). simpl. by rewrite update_ne. }
    split.
    { intros [|i] c Hi; simpl in Hi.
      - injection Hi as <-. rewrite Nat.add_0_r.
        rewrite (Hold n) by (simpl; unfold n; lia). simpl. by rewrite update_eq.
      - replace (n + S i) with (next_ref w2 + i) by (simpl; unfold n; lia).
        exact (Hmsg i c Hi). }
    split.
    { intros r Hr. rewrite (Hold r) by (simpl; lia). simpl.
      rewrite update_ne; [done | unfold n; lia]. }
    done.
Qed.

(** A blank text stops the loop with [IndexError]. *)
Lemma autorun_loop_blank (self : ref) (cmds : list string) (w : World) :
  Exists (λ cmd, PyStr.blank cmd = true) cmds →
  ∃ w',
    for_each cmds
      (λ cmd, m ← new_Message cmd None; modify_client self (send m)) w
    = Raise IndexError w'.
Proof.
  revert w. induction cmds as [|cmd cmds IH]; intros w Hex.
  - by apply Exists_nil in Hex.
  - simpl. unfold mbind at 1, M_bind at 1.
    unfold mbind at 1, M_bind at 1, new_Message.
    destruct (PyStr.blank cmd) eqn:Hb.
    + rewrite (Message_init_blank cmd None (clock w) eq_refl Hb). eauto.
    + destruct (Message_init_nonblank cmd None (clock w) Hb) as [m ->].
      apply Exists_cons in Hex as [Hex|Hex]; [congruence|].
      unfold modify_client. apply IH, Hex.
Qed.


Lemma Client_init_ok (u a : string) (w : World) :
  let self := next_ref w in
  let tags0 := initial_tags (default_tag w) u a in
  let texts := autorun_texts w tags0 in
  Forall (λ cmd, PyStr.blank cmd = false) texts →
  ∃ w',
    Client_init u a w = Ok self w'
    ∧ next_ref w' = S self + length texts
    ∧ objects w' self =
        mk_Client true u a (seq (S self) (length texts)) tags0
    ∧ (∀ r, r ≠ self → objects w' r = objects w r)
    ∧ (∀ i cmd, texts !! i = Some cmd →
         Message_init cmd None (clock w) = Val (messages w' (S self + i)))
    ∧ (∀ r, r < self → messages w' r = messages w r)
    ∧ same_config w w' ∧ same_registry w w' ∧ outputs w' = outputs w.
Proof.
  intros self tags0 texts Hnb.
  set (w0 := bump_ref (set_object self (mk_Client true u a [] tags0) w)).
  destruct (autorun_loop_ok self texts w0 Hnb)
    as (w' & Hrun & Hnext & Hself & Hother & Hmsg & Hold & Hcfg & Hreg & Hout).
  exists w'. split.
  { change (Client_init u a w) with
      ((for_each texts
          (λ cmd, m ← new_Message cmd None; modify_client self (send m)) ;;
        mret self) w0).
    by rewrite (bind_Ok _ _ _ _ _ Hrun). }
  split; [done|]. split.
  { rewrite Hself. simpl. by rewrite update_eq. }
  split.
  { intros r Hr. rewrite (Hother r Hr). simpl. by rewrite update_ne. }
  split; [exact Hmsg|]. split; [|done].
  intros r Hr. apply Hold. simpl. fold self. lia.
Qed.

Lemma Client_init_blank (u a : string) (w : World) :
  Exists (λ cmd, PyStr.blank cmd = true)
    (autorun_texts w (initial_tags (default_tag w) u a)) →
  ∃ w', Client_init u a w = Raise IndexError w'.
Proof.
  intros Hex. unfold Client_init.
  edestruct autorun_loop_blank as [w' Hw']; [exact Hex|].
  exists w'. by rewrite (bind_Raise _ _ _ _ _ Hw').
Qed.

(** ** Client: claims *)

(** C4.  Take the session a call of [Client(a)] has just built, with
    uuid [u], and apply any finite run of [add_tag] and [remove_tag]
    calls: no call raises, and in the session reached the uuid and the
    address are unchanged and still in the tag list; [remove_tag] of the
    uuid or of the address returns the session as it is. *)
Theorem tags_keep_uuid_and_addr
    (u a : string) (w w' : World) (self : ref) (ops : list tag_op) :
  Client_init u a w = Ok self w' →
  ∃ c, run_tag_ops ops (objects w' self) = Val c
    ∧ uuid c = u ∧ addr c = a
    ∧ u ∈ tags c ∧ a ∈ tags c
    ∧ remove_tag u c = Val c ∧ remove_tag a c = Val c.
Proof.
  intros Hinit.
  set (texts := autorun_texts w (initial_tags (default_tag w) u a)).
  destruct (decide (Exists (λ cmd, PyStr.blank cmd = true) texts)) as [Hex|Hnex].
  { destruct (Client_init_blank u a w Hex) as [w1 Hw1]. congruence. }
  assert (Hnb : Forall (λ cmd, PyStr.blank cmd = false) texts).
  { apply Forall_forall. intros cmd Hcmd.
    destruct (PyStr.blank cmd) eqn:Hb; [|done].
    exfalso. apply Hnex, Exists_exists. eauto. }
  destruct (Client_init_ok u a w Hnb) as (w1 & Hw1 & _ & Hself & _).
  rewrite Hinit in Hw1. injection Hw1 as -> <-.
  destruct (run_tag_ops_anchored ops (objects w' (next_ref w)))
    as (c & Hc & Hu & Ha & Hcu & Hca).
  { rewrite Hself. split; simpl.
    - apply elem_of_cons. by left.
    - apply elem_of_cons. right. apply elem_of_cons. by left. }
  rewrite Hself in Hu, Ha. simpl in Hu, Ha.
  exists c. rewrite <- Hu at 3. rewrite <- Ha at 3.
  rewrite remove_tag_uuid, remove_tag_addr.
  rewrite Hu in Hcu. rewrite Ha in Hca. done.
Qed.

Lemma tags_keep_uuid_and_addr_witness :
  ∃ w', Client_init "abc12345" "10.0.0.5" SampleConfig.red = Ok 0 w'
    ∧ ∃ c, run_tag_ops [AddTag "web"; RemoveTag "abc12345"; RemoveTag "red";
                        RemoveTag "10.0.0.5"] (objects w' 0) = Val c
        ∧ uuid c = "abc12345" ∧ addr c = "10.0.0.5"
        ∧ "abc12345" ∈ tags c ∧ "10.0.0.5" ∈ tags c
        ∧ remove_tag "abc12345" c = Val c ∧ remove_tag "10.0.0.5" c = Val c.
Proof.
  eexists. split; [reflexivity|].
  exact (tags_keep_uuid_and_addr "abc12345" "10.0.0.5" SampleConfig.red _ 0
           [AddTag "web"; RemoveTag "abc12345"; RemoveTag "red";
            RemoveTag "10.0.0.5"] eq_refl).
Defined.

(** C6, the construction half.  When the default tag equals the uuid
    drawn for the new session (a string [generate_uuid] can return),
    [Client.__init__] appends it without the test [add_tag] makes, and
    the tag list of the new session holds the uuid twice. *)
Theorem Client_init_repeats_default_tag :
  is_uuid "abc12345" = true
  ∧ ∃ w', Client_init "abc12345" "10.0.0.5" SampleConfig.default_is_uuid
          = Ok 0 w'
      ∧ tags (objects w' 0) = ["abc12345"; "10.0.0.5"; "abc12345"]
      ∧ ¬ NoDup (tags (objects w' 0)).
Proof.
  split; [reflexivity|].
  eexists. split; [reflexivity|]. split; [reflexivity|].
  simpl. intros [Hin _]%NoDup_cons. apply Hin.
  apply elem_of_cons. right. apply elem_of_cons. by left.
Qed.

(** The tag list built at construction is free of repetitions exactly when
    the uuid, the address and the default tag are pairwise different. *)
Lemma initial_tags_NoDup (dt : option string) (u a : string) :
  NoDup (initial_tags dt u a) ↔
  u ≠ a ∧ match dt with Some t => t ≠ u ∧ t ≠ a | None => True end.
Proof.
  unfold initial_tags. destruct dt as [t|]; simpl.
  - rewrite !NoDup_cons, !elem_of_cons, !elem_of_nil.
    split.
    + intros (H1 & H2 & _). split; [tauto|]. split; intros ->; tauto.
    + intros (H1 & H2 & H3). split; [|split; [|split; [|apply NoDup_nil_2]]].
      * intros [?|[?|[]]]; congruence.
      * intros [?|[]]; congruence.
      * intros [].
  - rewrite !NoDup_cons, !elem_of_cons, !elem_of_nil.
    split.
    + intros (H1 & _). split; [tauto | done].
    + intros (H1 & _). split; [|split; [|apply NoDup_nil_2]].
      * intros [?|[]]; congruence.
      * intros [].
Qed.

(** C7, as the code has it.  Let the tags seeded at construction be
    pairwise different and let no command text the autorun table lists
    for them be blank.  Then [Client(a)] returns a session whose queue
    holds, in tag order and in list order, one new message per listed
    text (no result yet, all different objects), a tag without an entry
    contributing nothing; a message sent later lands behind them. *)
Theorem Client_init_enqueues_autoruns (u a : string) (w : World) :
  let tags0 := initial_tags (default_tag w) u a in
  let texts := flat_map (λ tag, default [] (autoruns w !! tag)) tags0 in
  NoDup tags0 →
  Forall (λ cmd, PyStr.blank cmd = false) texts →
  ∃ self w',
    Client_init u a w = Ok self w'
    ∧ tags (objects w' self) = tags0
    ∧ (λ m, command (messages w' m)) <$> send_queue (objects w' self) = texts
    ∧ Forall (λ m, results (messages w' m) = None)
        (send_queue (objects w' self))
    ∧ NoDup (send_queue (objects w' self))
    ∧ ∀ m, send_queue (send m (objects w' self))
           = send_queue (objects w' self) ++ [m].
Proof.
  intros tags0 texts _ Hnb.
  destruct (Client_init_ok u a w Hnb)
    as (w' & Hrun & _ & Hself & _ & Hmsg & _).
  change (autorun_texts w (initial_tags (default_tag w) u a))
    with texts in Hself, Hmsg.
  clearbody texts.
  exists (next_ref w), w'. split; [done|]. rewrite Hself.
  cbn [send_queue tags send set_send_queue].
  split; [done|]. split; [|split; [|split; [apply NoDup_seq | done]]].
  - apply list_eq. intros i. rewrite list_lookup_fmap.
    destruct (texts !! i) as [cmd|] eqn:Hi.
    + rewrite (lookup_seq_lt _ _ i) by (by eapply lookup_lt_Some). simpl.
      by rewrite <- (proj1 (Message_init_command _ _ _ _ (Hmsg i cmd Hi))).
    + rewrite lookup_seq_ge by (by apply lookup_ge_None). done.
  - apply Forall_forall. intros m Hm%elem_of_seq.
    destruct (lookup_lt_is_Some_2 texts (m - S (next_ref w))) as [cmd Hcmd];
      [lia|].
    pose proof (Hmsg _ cmd Hcmd) as Hinit.
    replace (S (next_ref w) + (m - S (next_ref w))) with m in Hinit by lia.
    by rewrite <- (proj2 (Message_init_command _ _ _ _ Hinit)).
Qed.

Lemma Client_init_enqueues_autoruns_witness :
  ∃ self w',
    Client_init "abc12345" "10.0.0.5" SampleConfig.red = Ok self w'
    ∧ tags (objects w' self) = ["abc12345"; "10.0.0.5"; "red"]
    ∧ (λ m, command (messages w' m)) <$> send_queue (objects w' self)
      = ["whoami"; "id"]
    ∧ Forall (λ m, results (messages w' m) = None)
        (send_queue (objects w' self))
    ∧ NoDup (send_queue (objects w' self))
    ∧ ∀ m, send_queue (send m (objects w' self))
           = send_queue (objects w' self) ++ [m].
Proof.
  apply (Client_init_enqueues_autoruns "abc12345" "10.0.0.5" SampleConfig.red).
  - apply initial_tags_NoDup. simpl. repeat split; discriminate.
  - simpl. repeat constructor.
Defined.

(** C7 as stated fails: an empty line in the autorun file makes the
    construction raise, so the listed texts are not enqueued on any
    session; and a tag seeded twice has its texts enqueued twice. *)
Lemma Client_init_autoruns_counterexample :
  (∃ w', Client_init "abc12345" "10.0.0.5" SampleConfig.red_blank_line
         = Raise IndexError w')
  ∧ (∃ self w', Client_init "abc12345" "red" SampleConfig.red = Ok self w'
       ∧ "red" ∈ tags (objects w' self)
       ∧ (λ m, command (messages w' m)) <$> send_queue (objects w' self)
         = ["whoami"; "id"; "whoami"; "id"]).
Proof.
  split.
  - eexists. reflexivity.
  - eexists _, _. split; [reflexivity|]. split; [|reflexivity].
    simpl. apply elem_of_cons. right. apply elem_of_cons. by left.
Qed.

(** ** Registry: the primitive operations *)

Lemma shutdown_idemp c : shutdown (shutdown c) = shutdown c.
Proof. done. Qed.

Lemma add_client_free (c : ref) (w : World) :
  clients_lock w = false →
  add_client c w =
    Ok tt (set_lock false Release
             (set_pool_clients (pool_clients w ++ [c])
                (set_lock true Acquire w))).
Proof.
  intros Hl. unfold add_client, acquire, release. run. by rewrite Hl.
Qed.

Lemma add_client_held (c : ref) (w : World) :
  clients_lock w = true → add_client c w = Blocked w.
Proof.
  intros Hl. unfold add_client, acquire. run. by rewrite Hl.
Qed.

Lemma remove_client_present (c : ref) (w : World) (l : list ref) :
  clients_lock w = false →
  list_remove c (pool_clients w) = Some l →
  remove_client c w =
    Ok tt (set_lock false Release
             (set_pool_clients l (remove_client_entered c w))).
Proof.
  intros Hl Hr. unfold remove_client, acquire, release. run.
  rewrite Hl. simpl. by rewrite Hr.
Qed.

Lemma remove_client_absent (c : ref) (w : World) :
  clients_lock w = false →
  list_remove c (pool_clients w) = None →
  remove_client c w = Raise ValueError (remove_client_entered c w).
Proof.
  intros Hl Hr. unfold remove_client, acquire, release. run.
  rewrite Hl. simpl. by rewrite Hr.
Qed.

Lemma remove_client_held (c : ref) (w : World) :
  clients_lock w = true → remove_client c w = Blocked w.
Proof.
  intros Hl. unfold remove_client, acquire. run. by rewrite Hl.
Qed.

(** ** Registry: loops *)

Section loops.
Variable body : ref → M unit.
Variable step : ref → World → World.
Hypothesis body_step : ∀ c w, body c w = Ok tt (step c w).

Lemma for_each_fold (l : list ref) (w : World) :
  for_each l body w = Ok tt (foldl (λ w c, step c w) w l).
Proof.
  revert w. induction l as [|c l IH]; intros w; [done|].
  simpl. rewrite (bind_Ok _ _ _ _ _ (body_step c w)). apply IH.
Qed.

Hypothesis step_pool : ∀ c w, pool_clients (step c w) = pool_clients w.

(** A loop over the registry's own list whose body leaves the list
    alone visits the elements from the index on and never runs out of
    fuel. *)
Lemma for_pool_fold (fuel i : nat) (w : World) :
  length (pool_clients w) ≤ fuel + i →
  for_pool fuel i body w
  = Ok tt (foldl (λ w c, step c w) w (drop i (pool_clients w))).
Proof.
  revert i w. induction fuel as [|fuel IH]; intros i w Hlen.
  - simpl. rewrite lookup_ge_None_2 by lia.
    by rewrite drop_ge by lia.
  - simpl. destruct (pool_clients w !! i) as [c|] eqn:Hi.
    + rewrite (bind_Ok _ _ _ _ _ (body_step c w)).
      rewrite IH by (rewrite step_pool; lia).
      rewrite step_pool.
      by rewrite (drop_S _ _ _ Hi).
    + apply lookup_ge_None in Hi. by rewrite drop_ge.
Qed.

Lemma for_found_fold (f : found) (w : World) :
  for_found f body w
  = Ok tt (foldl (λ w c, step c w) w (found_list w f)).
Proof.
  destruct f as [|l]; simpl.
  - rewrite for_pool_fold by lia. by rewrite drop_0.
  - apply for_each_fold.
Qed.

End loops.

(** ** Registry: lookup *)

Lemma find_clients_by_tag_pure (tag : string) (w : World) :
  ∃ f, find_clients_by_tag tag w = Ok f w.
Proof. unfold find_clients_by_tag. case_bool_decide; eauto. Qed.

Lemma find_clients_by_tag_star (tag : string) (w : World) :
  PyStr.strip PyStr.is_quote tag = "*" →
  find_clients_by_tag tag w = Ok PoolList w.
Proof.
  intros Ht. unfold find_clients_by_tag. by rewrite bool_decide_eq_true_2.
Qed.

Lemma find_clients_by_tag_plain (tag : string) (w : World) :
  PyStr.strip PyStr.is_quote tag ≠ "*" →
  find_clients_by_tag tag w =
    Ok (NewList (filter (has_tag w (PyStr.strip PyStr.is_quote tag))
                   (pool_clients w))) w.
Proof.
  intros Ht. unfold find_clients_by_tag. by rewrite bool_decide_eq_false_2.
Qed.

Lemma matching_star (tag : string) (w : World) :
  PyStr.strip PyStr.is_quote tag = "*" → matching w tag = pool_clients w.
Proof.
  intros Ht. unfold matching. by rewrite find_clients_by_tag_star.
Qed.

Lemma matching_plain (tag : string) (w : World) :
  PyStr.strip PyStr.is_quote tag ≠ "*" →
  matching w tag =
    filter (has_tag w (PyStr.strip PyStr.is_quote tag)) (pool_clients w).
Proof.
  intros Ht. unfold matching. by rewrite find_clients_by_tag_plain.
Qed.

(** ** Registry: broadcast *)

Lemma sent_to_frame (m : ref) (l : list ref) (w : World) :
  same_config w (sent_to m l w) ∧ same_registry w (sent_to m l w)
  ∧ outputs (sent_to m l w) = outputs w
  ∧ next_ref (sent_to m l w) = next_ref w
  ∧ messages (sent_to m l w) = messages w.
Proof.
  revert w. induction l as [|c l IH]; intros w; [done|].
  unfold sent_to. simpl. apply (IH (set_object c _ w)).
Qed.

Lemma sent_to_trace (m : ref) (l : list ref) (w : World) :
  pool_trace (sent_to m l w) = pool_trace w.
Proof.
  revert w. induction l as [|c l IH]; intros w; [done|].
  unfold sent_to in *. simpl. by rewrite IH.
Qed.


Lemma sent_to_object (m : ref) (l : list ref) (w : World) (c : ref) :
  objects (sent_to m l w) c =
    set_send_queue (send_queue (objects w c) ++ replicate (occurrences c l) m)
      (objects w c).
Proof.
  revert w. induction l as [|x l IH]; intros w.
  - simpl. rewrite app_nil_r. by destruct (objects w c).
  - unfold sent_to. simpl. fold (sent_to m l (set_object x (send m (objects w x)) w)).
    rewrite IH. simpl. unfold occurrences.
    destruct (decide (x = c)) as [->|Hne].
    + rewrite update_eq, filter_cons_True by done. simpl.
      unfold set_send_queue. simpl. by rewrite <- app_assoc.
    + rewrite update_ne, filter_cons_False by done. done.
Qed.

Lemma send_message_by_tag_run (tag : string) (m : ref) (w : World) :
  send_message_by_tag tag m w = Ok tt (sent_to m (matching w tag) w).
Proof.
  unfold send_message_by_tag, matching.
  destruct (find_clients_by_tag_pure tag w) as [f Hf].
  rewrite (bind_Ok _ _ _ _ _ Hf), Hf.
  by apply for_found_fold with
    (step := λ c w, set_object c (send m (objects w c)) w).
Qed.

(** ** Registry: removal by tag *)

Section remove_all_facts.
Context `{EqDecision A}.
Context (P : A → Prop) `{!∀ x, Decision (P x)}.

Lemma list_remove_app_r (x : A) (pre l : list A) :
  x ∉ pre → list_remove x (pre ++ x :: l) = Some (pre ++ l).
Proof.
  induction pre as [|y pre IH]; intros Hx; simpl.
  - by rewrite decide_True.
  - apply not_elem_of_cons in Hx as [Hne Hx].
    rewrite decide_False by congruence. by rewrite IH.
Qed.

Lemma list_remove_all_filter_app (pre l : list A) :
  Forall (λ x, ¬ P x) pre →
  list_remove_all (filter P l) (pre ++ l)
  = Some (pre ++ filter (λ x, ¬ P x) l).
Proof.
  revert pre. induction l as [|x l IH]; intros pre Hpre; [done|].
  destruct (decide (P x)) as [Hx|Hx].
  - rewrite filter_cons_True by done.
    rewrite (filter_cons_False (λ x, ¬ P x)) by tauto. simpl.
    rewrite list_remove_app_r; [by apply IH|].
    intros Hin. by apply (proj1 (Forall_forall _ _) Hpre x Hin).
  - rewrite filter_cons_False by done.
    rewrite (filter_cons_True (λ x, ¬ P x)) by done.
    rewrite (cons_middle x pre l), app_assoc, IH.
    + by rewrite <- app_assoc.
    + apply Forall_app. split; [done | by apply Forall_singleton].
Qed.

(** Removing, one by one, the elements a filter selects leaves the
    elements it rejects, in their order. *)
Lemma list_remove_all_filter (l : list A) :
  list_remove_all (filter P l) l = Some (filter (λ x, ¬ P x) l).
Proof. apply (list_remove_all_filter_app [] l). constructor. Qed.

End remove_all_facts.

Lemma for_each_remove_client (l : list ref) (w : World) (rest : list ref) :
  clients_lock w = false →
  list_remove_all l (pool_clients w) = Some rest →
  ∃ w',
    for_each l remove_client w = Ok tt w'
    ∧ pool_clients w' = rest
    ∧ clients_lock w' = false
    ∧ lock_log w' =
        lock_log w ++ concat (replicate (length l) [Acquire; Release])
    ∧ (∀ c, objects w' c =
            if decide (c ∈ l) then shutdown (objects w c) else objects w c)
    ∧ same_config w w' ∧ outputs w' = outputs w
    ∧ next_ref w' = next_ref w ∧ messages w' = messages w.
Proof.
  revert w. induction l as [|x l IH]; intros w Hl Hrm.
  - injection Hrm as <-. exists w. simpl. rewrite app_nil_r.
    repeat split; done.
  - simpl in Hrm.
    destruct (list_remove x (pool_clients w)) as [p1|] eqn:Hx; [|done].
    pose proof (remove_client_present x w p1 Hl Hx) as Hstep.
    set (w1 := set_lock false Release
                 (set_pool_clients p1 (remove_client_entered x w))) in *.
    destruct (IH w1 eq_refl Hrm)
      as (w' & Hrun & Hpool & Hlock & Hlog & Hobj & Hcfg & Hout & Hnext & Hmsg).
    exists w'. split.
    { simpl. by rewrite (bind_Ok _ _ _ _ _ Hstep). }
    split; [done|]. split; [done|]. split.
    { rewrite Hlog. simpl. by rewrite <- !app_assoc. }
    split; [|done].
    intros c. rewrite Hobj. simpl.
    destruct (decide (c = x)) as [->|Hne].
    + rewrite update_eq. rewrite (decide_True (P := x ∈ x :: l)).
      * by destruct (decide (x ∈ l)).
      * apply elem_of_cons. by left.
    + rewrite update_ne by done.
      destruct (decide (c ∈ l)) as [Hin|Hin].
      * rewrite decide_True; [done|]. apply elem_of_cons. by right.
      * rewrite decide_False; [done|]. by apply not_elem_of_cons.
Qed.

(** ** Registry: removal through the wildcard

    For the wildcard the loop of [remove_clients_by_tag] runs over the
    registry's own list.  Each removal shifts the later sessions one
    place down while the iterator moves one place up, so the loop ends
    after visiting every second session. *)




(** Whatever the state, the loop over the registry's own list ends
    within the fuel it is given. *)
Lemma for_pool_remove_client_ends (fuel i : nat) (w : World) :
  length (pool_clients w) ≤ fuel + i →
  for_pool fuel i remove_client w ≠ OutOfFuel.
Proof.
  revert i w. induction fuel as [|fuel IH]; intros i w Hlen; simpl.
  - by rewrite lookup_ge_None_2 by lia.
  - destruct (pool_clients w !! i) as [c|] eqn:Hi; [|done].
    apply lookup_lt_Some in Hi.
    destruct (clients_lock w) eqn:Hl.
    { by rewrite (bind_Blocked _ _ _ _ (remove_client_held c w Hl)). }
    destruct (list_remove c (pool_clients w)) as [l|] eqn:Hrm.
    + rewrite (bind_Ok _ _ _ _ _ (remove_client_present c w l Hl Hrm)).
      apply IH. simpl. apply list_remove_length in Hrm. lia.
    + by rewrite (bind_Raise _ _ _ _ _ (remove_client_absent c w Hl Hrm)).
Qed.

Lemma remove_clients_by_tag_ends (tag : string) (w : World) :
  remove_clients_by_tag tag w ≠ OutOfFuel.
Proof.
  unfold remove_clients_by_tag.
  destruct (find_clients_by_tag_pure tag w) as [f Hf].
  rewrite (bind_Ok _ _ _ _ _ Hf). destruct f as [|l]; simpl.
  - apply for_pool_remove_client_ends. lia.
  - clear Hf. revert w. induction l as [|c l IH]; intros w; [done|].
    simpl. destruct (clients_lock w) eqn:Hl.
    { by rewrite (bind_Blocked _ _ _ _ (remove_client_held c w Hl)). }
    destruct (list_remove c (pool_clients w)) as [p|] eqn:Hrm.
    + rewrite (bind_Ok _ _ _ _ _ (remove_client_present c w p Hl Hrm)).
      apply IH.
    + by rewrite (bind_Raise _ _ _ _ _ (remove_client_absent c w Hl Hrm)).
Qed.

(** ** Registry: the order of lock calls and list changes *)

Lemma list_remove_all_length `{EqDecision A} (xs l rest : list A) :
  list_remove_all xs l = Some rest → length rest + length xs = length l.
Proof.
  revert l. induction xs as [|x xs IH]; intros l; simpl.
  - intros [= <-]. lia.
  - destruct (list_remove x l) as [l'|] eqn:Hx; [|done].
    intros Hrest. apply IH in Hrest. apply list_remove_length in Hx. lia.
Qed.

Lemma for_each_remove_client_trace
    (l : list ref) (w : World) (rest : list ref) :
  clients_lock w = false →
  list_remove_all l (pool_clients w) = Some rest →
  ∃ w',
    for_each l remove_client w = Ok tt w'
    ∧ pool_trace w' =
        pool_trace w ++ concat (replicate (length l) one_removal)
    ∧ pool_clients w' = rest
    ∧ clients_lock w' = false.
Proof.
  revert w. induction l as [|x l IH]; intros w Hl Hrm.
  - injection Hrm as <-. exists w. simpl. by rewrite app_nil_r.
  - simpl in Hrm.
    destruct (list_remove x (pool_clients w)) as [p1|] eqn:Hx; [|done].
    pose proof (remove_client_present x w p1 Hl Hx) as Hstep.
    set (w1 := set_lock false Release
                 (set_pool_clients p1 (remove_client_entered x w))) in *.
    destruct (IH w1 eq_refl Hrm) as (w' & Hrun & Htrace & Hpool & Hlock).
    exists w'. split.
    { simpl. by rewrite (bind_Ok _ _ _ _ _ Hstep). }
    split; [|done].
    rewrite Htrace. simpl. by rewrite <- !app_assoc.
Qed.

(** The loop over the registry's own list: every session it visits is in
    the list, so every removal it starts succeeds. *)
Lemma for_pool_remove_client_trace (fuel i : nat) (w : World) :
  clients_lock w = false →
  length (pool_clients w) ≤ fuel + i →
  ∃ w' k,
    for_pool fuel i remove_client w = Ok tt w'
    ∧ pool_trace w' = pool_trace w ++ concat (replicate k one_removal)
    ∧ length (pool_clients w') + k = length (pool_clients w)
    ∧ clients_lock w' = false.
Proof.
  revert i w. induction fuel as [|fuel IH]; intros i w Hl Hlen.
  - exists w, 0. simpl. rewrite lookup_ge_None_2 by lia.
    rewrite app_nil_r. split; [done|]. split; [done|]. split; [lia | done].
  - destruct (pool_clients w !! i) as [c|] eqn:Hi.
    + destruct (list_remove_elem c (pool_clients w)) as [l Hrm].
      { by eapply list_elem_of_lookup_2. }
      pose proof (remove_client_present c w l Hl Hrm) as Hstep.
      set (w1 := set_lock false Release
                   (set_pool_clients l (remove_client_entered c w))) in *.
      apply list_remove_length in Hrm as Hlen1.
      destruct (IH (S i) w1) as (w' & k & Hrun & Htrace & Hpool & Hlock).
      * done.
      * simpl. lia.
      * exists w', (S k). split.
        { simpl. by rewrite Hi, (bind_Ok _ _ _ _ _ Hstep). }
        split.
        { rewrite Htrace. simpl. by rewrite <- !app_assoc. }
        split; [|done].
        simpl in Hpool. lia.
    + exists w, 0. split.
      { destruct fuel; simpl; by rewrite Hi. }
      rewrite app_nil_r. split; [done|]. split; [lia | done].
Qed.

(** With the lock free [remove_clients_by_tag] returns, for every tag:
    what it does to the registry is a run of single removals, each with
    the lock taken before the list changes and released after, one per
    session removed. *)
Lemma remove_clients_by_tag_trace (tag : string) (w : World) :
  clients_lock w = false →
  ∃ w' k,
    remove_clients_by_tag tag w = Ok tt w'
    ∧ pool_trace w' = pool_trace w ++ concat (replicate k one_removal)
    ∧ length (pool_clients w') + k = length (pool_clients w)
    ∧ clients_lock w' = false
    ∧ (PyStr.strip PyStr.is_quote tag ≠ "*" → k = length (matching w tag)).
Proof.
  intros Hl. unfold remove_clients_by_tag.
  destruct (decide (PyStr.strip PyStr.is_quote tag = "*")) as [Ht|Ht].
  - rewrite (bind_Ok _ _ _ _ _ (find_clients_by_tag_star tag w Ht)).
    destruct (for_pool_remove_client_trace (length (pool_clients w)) 0 w Hl)
      as (w' & k & Hrun & Htrace & Hlen & Hlock); [lia|].
    exists w', k. repeat split; done.
  - rewrite (bind_Ok _ _ _ _ _ (find_clients_by_tag_plain tag w Ht)).
    pose proof (list_remove_all_filter
                  (has_tag w (PyStr.strip PyStr.is_quote tag))
                  (pool_clients w)) as Hrm.
    destruct (for_each_remove_client_trace _ w _ Hl Hrm)
      as (w' & Hrun & Htrace & Hpool & Hlock).
    eexists w', _. split; [exact Hrun|]. split; [exact Htrace|].
    split; [|split; [done|]].
    + rewrite Hpool. by apply list_remove_all_length in Hrm.
    + intros _. by rewrite matching_plain.
Qed.

(** ** Registry: claims *)

(** C1, as the code has it.  Let [t] be the tag with surrounding quotes
    trimmed, [t] not being the wildcard, and let the registry lock be
    free.  Then [remove_clients_by_tag] returns, and the registry then
    holds exactly the sessions it held whose tag list does not contain
    [t], in their order; every removed session has been shut down and no
    other session is touched. *)
Theorem remove_clients_by_tag_removes_tagged (tag : string) (w : World) :
  let t := PyStr.strip PyStr.is_quote tag in
  t ≠ "*" →
  clients_lock w = false →
  ∃ w',
    remove_clients_by_tag tag w = Ok tt w'
    ∧ pool_clients w' = filter (λ c, t ∉ tags (objects w c)) (pool_clients w)
    ∧ (∀ c, c ∈ pool_clients w' ↔
            c ∈ pool_clients w ∧ t ∉ tags (objects w c))
    ∧ (∀ c, c ∈ pool_clients w → t ∈ tags (objects w c) →
            objects w' c = shutdown (objects w c))
    ∧ (∀ c, ¬ (c ∈ pool_clients w ∧ t ∈ tags (objects w c)) →
            objects w' c = objects w c)
    ∧ clients_lock w' = false.
Proof.
  intros t Ht Hl.
  pose proof (list_remove_all_filter (has_tag w t) (pool_clients w)) as Hrm.
  destruct (for_each_remove_client _ w _ Hl Hrm)
    as (w' & Hrun & Hpool & Hlock & _ & Hobj & _).
  exists w'. split.
  { unfold remove_clients_by_tag.
    rewrite (bind_Ok _ _ _ _ _ (find_clients_by_tag_plain tag w Ht)).
    exact Hrun. }
  split; [done|]. split.
  { intros c. rewrite Hpool, list_elem_of_filter. unfold has_tag. tauto. }
  split; [|split; [|done]].
  - intros c Hc Htag. rewrite Hobj, decide_True; [done|].
    by apply list_elem_of_filter.
  - intros c Hc. rewrite Hobj, decide_False; [done|].
    intros [? ?]%list_elem_of_filter. by apply Hc.
Qed.

Lemma remove_clients_by_tag_removes_tagged_witness :
  ∃ w',
    remove_clients_by_tag "abc12345" SampleRegistry.two_web = Ok tt w'
    ∧ pool_clients w' = [1]
    ∧ keep_alive (objects w' 0) = false
    ∧ keep_alive (objects w' 1) = true.
Proof.
  destruct (remove_clients_by_tag_removes_tagged "abc12345"
              SampleRegistry.two_web)
    as (w' & Hrun & Hpool & _ & Hgone & Hkept & _);
    [discriminate | reflexivity |].
  exists w'. split; [exact Hrun|]. split; [exact Hpool|]. split.
  - rewrite (Hgone 0); [reflexivity | | ].
    + apply elem_of_cons. by left.
    + apply elem_of_cons. by left.
  - rewrite (Hkept 1); [reflexivity|].
    intros [_ Hin]. vm_compute in Hin.
    repeat (apply elem_of_cons in Hin as [Hin|Hin]; [discriminate|]).
    by apply elem_of_nil in Hin.
Defined.

(** C1 as stated fails twice.  A tag written with quotes is held by no
    session, yet the sessions holding the trimmed tag are removed; and
    the wildcard, whose loop walks the registry's own list while
    [remove_client] shortens it, skips every other session. *)
Lemma remove_clients_by_tag_counterexample :
  (Forall (λ c, SampleRegistry.quoted_web
                ∉ tags (objects SampleRegistry.two_web c))
     (pool_clients SampleRegistry.two_web)
   ∧ ∃ w', remove_clients_by_tag SampleRegistry.quoted_web
             SampleRegistry.two_web = Ok tt w'
         ∧ pool_clients w' = [])
  ∧ (∃ w', remove_clients_by_tag "*" SampleRegistry.two_web = Ok tt w'
         ∧ pool_clients w' = [1]
         ∧ keep_alive (objects w' 1) = true).
Proof.
  split; [split|].
  - repeat constructor; vm_compute; intros Hin;
      repeat (apply elem_of_cons in Hin as [Hin|Hin]; [discriminate|]);
      by apply elem_of_nil in Hin.
  - eexists. split; [vm_compute; reflexivity | reflexivity].
  - eexists. split; [vm_compute; reflexivity |]. split; reflexivity.
Qed.

(** C3, as the code has it.  With the registry lock free:
    [remove_client] of a session that is not in the registry shuts the
    session down and then raises [ValueError], the list being left as it
    was; [remove_client] of a session that is in the list returns with the
    first occurrence removed and the lock free again, and when that was
    the only occurrence an immediate second call raises [ValueError],
    again without changing the list. *)
Theorem remove_client_twice (c : ref) (w : World) :
  clients_lock w = false →
  (c ∉ pool_clients w →
   ∃ w', remove_client c w = Raise ValueError w'
     ∧ pool_clients w' = pool_clients w
     ∧ objects w' c = shutdown (objects w c)
     ∧ ∀ r, r ≠ c → objects w' r = objects w r)
  ∧ (∀ l, list_remove c (pool_clients w) = Some l →
     ∃ w1, remove_client c w = Ok tt w1
       ∧ pool_clients w1 = l
       ∧ clients_lock w1 = false
       ∧ objects w1 c = shutdown (objects w c)
       ∧ (c ∉ l →
          ∃ w2, remove_client c w1 = Raise ValueError w2
            ∧ pool_clients w2 = l
            ∧ objects w2 c = shutdown (objects w c))).
Proof.
  intros Hl. split.
  - intros Hc. apply list_remove_not_elem in Hc.
    exists (remove_client_entered c w).
    split; [by apply remove_client_absent|].
    split; [done|]. split; [simpl; by rewrite update_eq|].
    intros r Hr. simpl. by rewrite update_ne.
  - intros l Hrm. eexists. split; [by apply remove_client_present|].
    split; [done|]. split; [done|]. split; [simpl; by rewrite update_eq|].
    intros Hc. apply list_remove_not_elem in Hc.
    eexists. split; [by apply remove_client_absent|].
    split; [done|]. simpl. by rewrite !update_eq.
Qed.

Lemma remove_client_twice_witness :
  clients_lock SampleRegistry.two_web = false
  ∧ ∃ w1, remove_client 0 SampleRegistry.two_web = Ok tt w1
      ∧ pool_clients w1 = [1]
      ∧ ∃ w2, remove_client 0 w1 = Raise ValueError w2
          ∧ pool_clients w2 = [1].
Proof.
  split; [reflexivity|].
  destruct (remove_client_twice 0 SampleRegistry.two_web eq_refl)
    as [_ Hin].
  destruct (Hin [1] eq_refl) as (w1 & Hrun & Hpool & _ & _ & Hagain).
  exists w1. split; [exact Hrun|]. split; [exact Hpool|].
  destruct Hagain as (w2 & Hrun2 & Hpool2 & _).
  - intros Hin1. apply elem_of_cons in Hin1 as [Hin1|Hin1]; [discriminate|].
    by apply elem_of_nil in Hin1.
  - exists w2. split; [exact Hrun2 | exact Hpool2].
Defined.

(** C3 as stated fails: on the empty registry [remove_client] raises, and
    it returns neither a value nor the lock. *)
Lemma remove_client_counterexample :
  (0 ∉ pool_clients Sample.start)
  ∧ clients_lock Sample.start = false
  ∧ ∃ w', remove_client 0 Sample.start = Raise ValueError w'
      ∧ clients_lock w' = true.
Proof.
  split; [apply not_elem_of_nil|]. split; [reflexivity|].
  eexists. split; reflexivity.
Qed.

(** After the failed removal the lock stays taken, and the next
    registration waits for it. *)
Lemma remove_client_absent_keeps_lock (c c' : ref) (w : World) :
  clients_lock w = false → c ∉ pool_clients w →
  ∃ w', remove_client c w = Raise ValueError w'
    ∧ clients_lock w' = true
    ∧ add_client c' w' = Blocked w'.
Proof.
  intros Hl Hc. apply list_remove_not_elem in Hc.
  exists (remove_client_entered c w).
  split; [by apply remove_client_absent|]. split; [done|].
  by apply add_client_held.
Qed.

Lemma filter_none {A} (P : A → Prop) `{!∀ x, Decision (P x)} (l : list A) :
  (∀ x, x ∈ l → ¬ P x) → filter P l = [].
Proof.
  induction l as [|x l IH]; intros Hl; [done|].
  rewrite filter_cons_False.
  - apply IH. intros y Hy. apply Hl, elem_of_cons. by right.
  - apply Hl, elem_of_cons. by left.
Qed.

(** C5, as the code has it.  A tag that is the wildcard once its quotes
    are trimmed selects the registry's list itself, whatever the tags; a
    tag whose trimmed form is not the wildcard and is held by no
    registered session selects nothing: [find_clients_by_tag] returns the
    empty list and [send_message_by_tag] returns with the state
    unchanged. *)
Theorem find_clients_by_tag_wildcard_unknown
    (tag : string) (m : ref) (w : World) :
  let t := PyStr.strip PyStr.is_quote tag in
  find_clients_by_tag "*" w = Ok PoolList w
  ∧ found_list w PoolList = pool_clients w
  ∧ (t = "*" → find_clients_by_tag tag w = Ok PoolList w)
  ∧ (t ≠ "*" →
     (∀ c, c ∈ pool_clients w → t ∉ tags (objects w c)) →
     find_clients_by_tag tag w = Ok (NewList []) w
     ∧ send_message_by_tag tag m w = Ok tt w).
Proof.
  intros t. split; [done|]. split; [done|].
  split; [apply find_clients_by_tag_star|].
  intros Ht Hnone.
  assert (Hnil : filter (has_tag w t) (pool_clients w) = [])
    by (by apply filter_none).
  split.
  - rewrite find_clients_by_tag_plain by done. fold t. by rewrite Hnil.
  - rewrite send_message_by_tag_run, matching_plain by done.
    fold t. by rewrite Hnil.
Qed.

Lemma find_clients_by_tag_wildcard_unknown_witness :
  PyStr.strip PyStr.is_quote "db" ≠ "*"
  ∧ (∀ c, c ∈ pool_clients SampleRegistry.two_web →
          "db" ∉ tags (objects SampleRegistry.two_web c))
  ∧ find_clients_by_tag "db" SampleRegistry.two_web
    = Ok (NewList []) SampleRegistry.two_web
  ∧ send_message_by_tag "db" 2 SampleRegistry.two_web
    = Ok tt SampleRegistry.two_web.
Proof.
  assert (Hnone : ∀ c, c ∈ pool_clients SampleRegistry.two_web →
            "db" ∉ tags (objects SampleRegistry.two_web c)).
  { intros c Hc. simpl in Hc.
    apply elem_of_cons in Hc as [->|Hc];
      [|apply elem_of_cons in Hc as [->|Hc]; [|by apply elem_of_nil in Hc]].
    all: vm_compute; intros Hin;
      repeat (apply elem_of_cons in Hin as [Hin|Hin]; [discriminate|]);
      by apply elem_of_nil in Hin. }
  split; [discriminate|]. split; [exact Hnone|].
  apply (find_clients_by_tag_wildcard_unknown "db" 2 SampleRegistry.two_web);
    [discriminate | exact Hnone].
Defined.

(** C5 as stated fails for a tag written with quotes: no session holds
    it, yet the lookup returns the sessions that hold the trimmed tag and
    the broadcast reaches their queues. *)
Lemma find_clients_by_tag_counterexample :
  Forall (λ c, SampleRegistry.quoted_web
               ∉ tags (objects SampleRegistry.two_web c))
    (pool_clients SampleRegistry.two_web)
  ∧ find_clients_by_tag SampleRegistry.quoted_web SampleRegistry.two_web
    = Ok (NewList [0; 1]) SampleRegistry.two_web
  ∧ ∃ w', send_message_by_tag SampleRegistry.quoted_web 2
            SampleRegistry.two_web = Ok tt w'
      ∧ send_queue (objects w' 0) = [2]
      ∧ send_queue (objects w' 1) = [2].
Proof.
  split; [|split].
  - repeat constructor; vm_compute; intros Hin;
      repeat (apply elem_of_cons in Hin as [Hin|Hin]; [discriminate|]);
      by apply elem_of_nil in Hin.
  - reflexivity.
  - eexists. split; [vm_compute; reflexivity|]. split; reflexivity.
Qed.

(** ** Registry: the lock *)

Lemma add_client_takes_lock (c : ref) : takes_lock (add_client c).
Proof.
  intros w. destruct (clients_lock w) eqn:Hl.
  - by apply add_client_held.
  - intros a w'. rewrite add_client_free by done.
    intros [= _ <-]. split; [|done].
    exists 1. simpl. by rewrite <- !app_assoc.
Qed.

Lemma remove_client_takes_lock (c : ref) : takes_lock (remove_client c).
Proof.
  intros w. destruct (clients_lock w) eqn:Hl.
  - by apply remove_client_held.
  - intros a w'. destruct (list_remove c (pool_clients w)) as [l|] eqn:Hrm.
    + rewrite (remove_client_present c w l) by done.
      intros [= _ <-]. split; [|done].
      exists 1. simpl. by rewrite <- !app_assoc.
    + by rewrite remove_client_absent.
Qed.

(** C9, as the code has it.  [add_client] and [remove_client] run under
    the registry lock: each waits while it is held; with the lock free,
    [add_client] returns and [remove_client] returns for a registered
    session, and what either has then done to the registry is to
    acquire the lock, change the list, and release the lock, in this
    order.  The other operations do not take it: [find_clients_by_tag],
    [get_tags] and [send_message_by_tag] return in every state, the lock
    held or not, with neither a lock call nor a change of the list, and
    [remove_clients_by_tag], for every tag, the wildcard too, returns
    after a run of single removals, each holding the lock around its own
    change of the list only, one per session removed. *)
Theorem registry_lock_discipline (c m : ref) (tag : string) (w : World) :
  takes_lock (add_client c)
  ∧ takes_lock (remove_client c)
  ∧ (clients_lock w = false →
     ∃ w', add_client c w = Ok tt w'
       ∧ pool_clients w' = pool_clients w ++ [c]
       ∧ pool_trace w' =
           pool_trace w ++ [OnLock Acquire; ListWrite; OnLock Release])
  ∧ (clients_lock w = false →
     ∀ l, list_remove c (pool_clients w) = Some l →
     ∃ w', remove_client c w = Ok tt w'
       ∧ pool_clients w' = l
       ∧ pool_trace w' =
           pool_trace w ++ [OnLock Acquire; ListWrite; OnLock Release])
  ∧ (∃ f, find_clients_by_tag tag w = Ok f w)
  ∧ (∃ d, get_tags w = Ok d w)
  ∧ (∃ w', send_message_by_tag tag m w = Ok tt w'
       ∧ pool_trace w' = pool_trace w
       ∧ same_registry w w')
  ∧ (clients_lock w = false →
     ∃ w' k, remove_clients_by_tag tag w = Ok tt w'
       ∧ pool_trace w' = pool_trace w ++ concat (replicate k one_removal)
       ∧ length (pool_clients w') + k = length (pool_clients w)
       ∧ clients_lock w' = false
       ∧ (PyStr.strip PyStr.is_quote tag ≠ "*" →
          k = length (matching w tag))).
Proof.
  split; [apply add_client_takes_lock|].
  split; [apply remove_client_takes_lock|].
  split.
  { intros Hl. eexists. split; [by apply add_client_free|].
    split; [done|]. simpl. by rewrite <- !app_assoc. }
  split.
  { intros Hl l Hrm. eexists. split; [by apply remove_client_present|].
    split; [done|]. simpl. by rewrite <- !app_assoc. }
  split; [apply find_clients_by_tag_pure|].
  split; [by eexists|].
  split.
  { eexists. split; [apply send_message_by_tag_run|].
    split; [apply sent_to_trace|].
    by destruct (sent_to_frame m (matching w tag) w) as (_ & ? & _). }
  apply remove_clients_by_tag_trace.
Qed.

Lemma registry_lock_discipline_witness :
  clients_lock SampleRegistry.two_web = false
  ∧ PyStr.strip PyStr.is_quote "web" ≠ "*"
  ∧ ∃ w', remove_clients_by_tag "web" SampleRegistry.two_web = Ok tt w'
      ∧ pool_trace w' =
          [OnLock Acquire; ListWrite; OnLock Release;
           OnLock Acquire; ListWrite; OnLock Release].
Proof.
  split; [reflexivity|]. split; [discriminate|].
  destruct (registry_lock_discipline 0 2 "web" SampleRegistry.two_web)
    as (_ & _ & _ & _ & _ & _ & _ & Hrm).
  destruct (Hrm eq_refl) as (w' & k & Hrun & Htrace & _ & _ & Hk).
  exists w'. split; [exact Hrun|].
  rewrite Htrace, Hk by discriminate. reflexivity.
Defined.

Lemma remove_two_web_trace :
  ∃ w', remove_clients_by_tag "web" SampleRegistry.two_web = Ok tt w'
    ∧ pool_trace w' =
        [OnLock Acquire; ListWrite; OnLock Release;
         OnLock Acquire; ListWrite; OnLock Release].
Proof. eexists. split; [vm_compute; reflexivity | reflexivity]. Qed.

(** C9 as stated fails: with the lock held by another caller the lookup,
    the tag count and the broadcast still run, and a bulk removal of two
    sessions gives the lock up between the two removals. *)
Lemma registry_lock_counterexample :
  ¬ takes_lock (find_clients_by_tag "web")
  ∧ ¬ takes_lock get_tags
  ∧ ¬ takes_lock (send_message_by_tag "web" 2)
  ∧ ¬ takes_lock (remove_clients_by_tag "web").
Proof.
  split; [|split; [|split]].
  - intros H. specialize (H SampleRegistry.two_web_locked). discriminate H.
  - intros H. specialize (H SampleRegistry.two_web_locked). discriminate H.
  - intros H. specialize (H SampleRegistry.two_web_locked).
    vm_compute in H. discriminate H.
  - intros H. specialize (H SampleRegistry.two_web). simpl in H.
    destruct remove_two_web_trace as (w' & Hrun & Htrace).
    destruct (H tt w' Hrun) as [[k Hk] _]. rewrite Htrace in Hk.
    destruct k as [|[|k]]; discriminate Hk.
Qed.

(** ** Broadcast and responses *)

Lemma occurrences_elem (c : ref) (l : list ref) :
  c ∈ l → ∃ k, occurrences c l = S k.
Proof.
  intros Hc. unfold occurrences.
  assert (Hin : c ∈ filter (λ r, r = c) l) by (by apply list_elem_of_filter).
  destruct (filter (λ r, r = c) l) as [|x f]; [by apply elem_of_nil in Hin|].
  by exists (length f).
Qed.

Lemma deliverable_console (w : World) (self : Client) (message : Message) :
  out_dir w = None → deliverable w self message = true.
Proof. intros Hd. unfold deliverable. by rewrite Hd. Qed.

(** One turn of the handler for a session whose queue is not empty: the
    answer is stored before [process_response] runs, so it is stored
    also when the output file cannot be created. *)
Lemma handle_response_head
    (c : ref) (data : string) (w : World) (m : ref) (q : list ref) :
  send_queue (objects w c) = m :: q →
  ∃ w',
    handle_response c data w =
      (if deliverable w (objects w c) (set_results (messages w m) data)
       then Ok tt w' else Raise OSError w')
    ∧ objects w' c = set_send_queue q (objects w c)
    ∧ (∀ r, r ≠ c → objects w' r = objects w r)
    ∧ messages w' m = set_results (messages w m) data
    ∧ (∀ r, r ≠ m → messages w' r = messages w r)
    ∧ outputs w' =
        outputs w
        ++ (if deliverable w (objects w c) (set_results (messages w m) data)
            then [delivery w (objects w c) (set_results (messages w m) data)]
            else [])
    ∧ same_config w w' ∧ same_registry w w'
    ∧ fs_refuses w' = fs_refuses w.
Proof.
  intros Hq. unfold handle_response. rewrite Hq. run.
  unfold process_response, create_outfile, delivery, deliverable. simpl.
  rewrite !update_eq. simpl.
  destruct (out_dir w) as [d|] eqn:Hd; simpl.
  - destruct (fs_refuses w _) eqn:Hfs; simpl.
    + eexists. split; [reflexivity|]. simpl. rewrite !update_eq.
      split; [done|]. split; [by intros r Hr; rewrite update_ne|].
      split; [done|]. split; [by intros r Hr; rewrite update_ne|].
      split; [by rewrite app_nil_r|]. done.
    + eexists. split; [reflexivity|]. simpl. rewrite !update_eq.
      split; [done|]. split; [by intros r Hr; rewrite update_ne|].
      split; [done|]. split; [by intros r Hr; rewrite update_ne|].
      split; [done|]. done.
  - eexists. split; [reflexivity|]. simpl. rewrite !update_eq.
    split; [done|]. split; [by intros r Hr; rewrite update_ne|].
    split; [done|]. split; [by intros r Hr; rewrite update_ne|].
    split; [done|]. done.
Qed.

(** A turn that cannot deliver: the command is gone from the queue, the
    answer is stored, nothing is written. *)
Lemma handle_response_refused :
  ∃ w',
    handle_response 0 "total 0" SampleSession.to_files = Raise OSError w'
    ∧ send_queue (objects w' 0) = []
    ∧ results (messages w' 1) = Some "total 0"
    ∧ outputs w' = [].
Proof. eexists. split; [vm_compute; reflexivity|]. done. Qed.




(** * Further properties *)

(** ** Message and timestamp *)

(** X1.  [Message.__init__] raises in one case only, and then
    [IndexError]: when the job name is absent or empty and the command
    text holds no token.  With a non-empty job name it succeeds on every
    text, blank ones included, and keeps the given name. *)
Theorem Message_init_raises_iff
    (cmd : string) (jn : option string) (now : datetime) :
  (Message_init cmd jn now = Exc IndexError
   ↔ truthy jn = false ∧ PyStr.blank cmd = true)
  ∧ (∀ e, Message_init cmd jn now = Exc e → e = IndexError)
  ∧ (∀ j, jn = Some j → j ≠ EmptyString →
       Message_init cmd jn now
       = Val (mk_Message cmd (generate_timestamp now) None j)).
Proof.
  split; [split|split].
  - intros H. unfold Message_init in H.
    destruct (truthy jn); [done|]. split; [done|].
    destruct (PyStr.split cmd) eqn:Hs; [by apply split_nil_blank | done].
  - intros [Hjn Hb]. by apply Message_init_blank.
  - intros e. unfold Message_init. destruct (truthy jn); [done|].
    destruct (PyStr.split cmd); [by intros [= <-] | done].
  - intros j -> Hj. unfold Message_init. by destruct j.
Qed.

Lemma Message_init_raises_iff_witness :
  Message_init "   " (Some "job") Sample.t0
  = Val (mk_Message "   " (generate_timestamp Sample.t0) None "job").
Proof.
  by apply (Message_init_raises_iff "   " (Some "job") Sample.t0).
Defined.

(** X2.  The timestamp determines the second it was taken in: two valid
    clock readings that differ give different timestamps. *)
Theorem generate_timestamp_inj (d1 d2 : datetime) :
  valid_datetime d1 → valid_datetime d2 →
  d1 ≠ d2 → generate_timestamp d1 ≠ generate_timestamp d2.
Proof.
  intros H1 H2 Hne E. apply Hne.
  pose proof (generate_timestamp_value d1 H1) as V1.
  pose proof (generate_timestamp_value d2 H2) as V2.
  rewrite E, V2 in V1. clear E V2 Hne.
  destruct H1 as (? & ? & ? & ? & ? & ?), H2 as (? & ? & ? & ? & ? & ?).
  destruct d1 as [y1 mo1 da1 h1 mi1 s1], d2 as [y2 mo2 da2 h2 mi2 s2].
  simpl in *.
  assert (y1 = y2) by lia. subst.
  assert (mo1 = mo2) by lia. subst.
  assert (da1 = da2) by lia. subst.
  assert (h1 = h2) by lia. subst.
  assert (mi1 = mi2) by lia. subst.
  assert (s1 = s2) by lia. by subst.
Qed.

Lemma generate_timestamp_inj_witness :
  generate_timestamp Sample.t0
  ≠ generate_timestamp (mk_datetime 2024 3 9 7 5 2).
Proof.
  apply generate_timestamp_inj.
  - unfold valid_datetime; simpl; lia.
  - unfold valid_datetime; simpl; lia.
  - discriminate.
Defined.

(** ** Tags of one session *)

Lemma list_remove_app_last `{EqDecision A} (x : A) (l : list A) :
  x ∉ l → list_remove x (l ++ [x]) = Some l.
Proof.
  intros Hx. rewrite (list_remove_app_r x l [] Hx). by rewrite app_nil_r.
Qed.

(** X3.  Adding a tag a session does not hold and removing it again gives
    back the session exactly as it was, the order of its tags
    included. *)
Theorem remove_tag_add_tag (t : string) (c : Client) :
  uuid c ∈ tags c → addr c ∈ tags c →
  t ∉ tags c →
  remove_tag t (add_tag t c) = Val c.
Proof.
  intros Hu Ha Ht.
  assert (t ≠ uuid c) by (intros ->; done).
  assert (t ≠ addr c) by (intros ->; done).
  unfold remove_tag. destruct (add_tag_fields t c) as (-> & -> & _).
  rewrite add_tag_absent by done.
  rewrite bool_decide_eq_true_2
    by (apply elem_of_app; right; apply elem_of_cons; by left).
  rewrite !bool_decide_eq_true_2 by done. simpl.
  rewrite list_remove_app_last by done.
  unfold add_tag. rewrite bool_decide_eq_false_2 by done.
  by destruct c.
Qed.

Lemma remove_tag_add_tag_witness :
  remove_tag "web" (add_tag "web"
     (mk_Client true "abc12345" "10.0.0.5" [] ["abc12345"; "10.0.0.5"]))
  = Val (mk_Client true "abc12345" "10.0.0.5" [] ["abc12345"; "10.0.0.5"]).
Proof.
  apply remove_tag_add_tag; simpl.
  - apply elem_of_cons. by left.
  - apply elem_of_cons. right. apply elem_of_cons. by left.
  - intros Hin.
    repeat (apply elem_of_cons in Hin as [Hin|Hin]; [discriminate|]).
    by apply elem_of_nil in Hin.
Defined.

Section removable_tags.
  Context `{EqDecision A}.
  Context (P : A → Prop) `{!∀ x, Decision (P x)}.

Lemma list_remove_filter_NoDup (t : A) (l l' : list A) :
  NoDup (filter P l) →
  list_remove t l = Some l' →
  NoDup (filter P l') ∧ (P t → t ∉ l').
Proof.
  revert l'. induction l as [|y l IH]; intros l' Hnd; simpl; [done|].
  destruct (decide (y = t)) as [->|Hne].
  - intros [= <-]. destruct (decide (P t)) as [Ht|Ht].
    + rewrite filter_cons_True in Hnd by done.
      apply NoDup_cons in Hnd as [Hin Hnd]. split; [done|].
      intros _ Hl. apply Hin. by apply list_elem_of_filter.
    + rewrite filter_cons_False in Hnd by done. done.
  - destruct (list_remove t l) as [r|] eqn:Hr; [|done].
    intros [= <-].
    assert (Hnd' : NoDup (filter P l)).
    { destruct (decide (P y)).
      - rewrite filter_cons_True in Hnd by done.
        by apply NoDup_cons in Hnd as [_ ?].
      - by rewrite filter_cons_False in Hnd. }
    destruct (IH r Hnd' eq_refl) as [Hr1 Hr2]. split.
    + destruct (decide (P y)) as [Hy|Hy].
      * rewrite filter_cons_True by done. apply NoDup_cons. split; [|done].
        rewrite filter_cons_True in Hnd by done.
        apply NoDup_cons in Hnd as [Hin _].
        intros [_ Hyr]%list_elem_of_filter. apply Hin.
        apply list_elem_of_filter. split; [done|].
        by apply (list_remove_other t y l r Hr).
      * by rewrite filter_cons_False.
    + intros Ht. apply not_elem_of_cons. split; [congruence | by apply Hr2].
Qed.

End removable_tags.

(** What a successful call of [Client(a)] has built. *)
Lemma Client_init_Ok_inv (u a : string) (w w' : World) (self : ref) :
  Client_init u a w = Ok self w' →
  self = next_ref w
  ∧ objects w' self =
      mk_Client true u a
        (seq (S (next_ref w))
           (length (autorun_texts w (initial_tags (default_tag w) u a))))
        (initial_tags (default_tag w) u a)
  ∧ same_registry w w' ∧ same_config w w'
  ∧ (∀ r, r ≠ self → objects w' r = objects w r).
Proof.
  intros Hinit.
  set (texts := autorun_texts w (initial_tags (default_tag w) u a)).
  destruct (decide (Exists (λ cmd, PyStr.blank cmd = true) texts)) as [Hex|Hnex].
  { destruct (Client_init_blank u a w Hex) as [w1 Hw1]. congruence. }
  assert (Hnb : Forall (λ cmd, PyStr.blank cmd = false) texts).
  { apply Forall_forall. intros cmd Hcmd.
    destruct (PyStr.blank cmd) eqn:Hb; [|done].
    exfalso. apply Hnex, Exists_exists. eauto. }
  destruct (Client_init_ok u a w Hnb)
    as (w1 & Hw1 & _ & Hself & Hoth & _ & _ & Hcfg & Hreg & _).
  rewrite Hinit in Hw1. injection Hw1 as -> <-. done.
Qed.

Lemma add_tag_free_tags_once (t : string) (c : Client) :
  free_tags_once c → free_tags_once (add_tag t c).
Proof.
  unfold free_tags_once. destruct (add_tag_fields t c) as (-> & -> & _).
  unfold add_tag. case_bool_decide as Ht; [done|]. simpl.
  intros Hnd. rewrite filter_app. apply NoDup_app. split; [done|]. split.
  - intros x [_ Hx]%list_elem_of_filter [_ Hx']%list_elem_of_filter.
    apply list_elem_of_singleton in Hx' as ->. done.
  - destruct (decide (t ≠ uuid c ∧ t ≠ addr c)).
    + rewrite filter_cons_True by done. apply NoDup_singleton.
    + rewrite filter_cons_False by done. apply NoDup_nil_2.
Qed.

Lemma remove_tag_free_tags_once (t : string) (c c' : Client) :
  free_tags_once c → remove_tag t c = Val c' →
  free_tags_once c' ∧ (t ≠ uuid c → t ≠ addr c → t ∉ tags c').
Proof.
  intros Hc Hrm. unfold free_tags_once.
  destruct (remove_tag_fields _ _ _ Hrm) as (-> & -> & _).
  unfold remove_tag in Hrm.
  destruct (bool_decide (t ∈ tags c)) eqn:Hin; simpl in Hrm.
  - destruct (bool_decide (t ≠ uuid c)) eqn:Hu; simpl in Hrm;
      [|injection Hrm as <-; split; [done|];
        by apply bool_decide_eq_false in Hu].
    destruct (bool_decide (t ≠ addr c)) eqn:Ha; simpl in Hrm;
      [|injection Hrm as <-; split; [done|];
        by apply bool_decide_eq_false in Ha].
    destruct (list_remove t (tags c)) as [l|] eqn:Hl; [|done].
    injection Hrm as <-. simpl.
    destruct (list_remove_filter_NoDup _ t _ _ Hc Hl) as [H1 H2].
    split; [done|]. intros ? ?. by apply H2.
  - injection Hrm as <-. split; [done|]. intros _ _.
    by apply bool_decide_eq_false in Hin.
Qed.

Lemma run_tag_ops_free_tags_once (ops : list tag_op) (c c' : Client) :
  free_tags_once c → run_tag_ops ops c = Val c' → free_tags_once c'.
Proof.
  revert c. induction ops as [|[t|t] ops IH]; intros c Hc; simpl.
  - by intros [= <-].
  - apply IH. by apply add_tag_free_tags_once.
  - destruct (remove_tag t c) as [c1|] eqn:Hc1; [|done].
    apply IH. by destruct (remove_tag_free_tags_once t c c1).
Qed.

(** X4.  On a session built by [Client(a)] and edited by any run of
    [add_tag] and [remove_tag] calls, [remove_tag] of a tag other than
    the uuid and the address leaves no occurrence of that tag behind,
    and keeps every other tag. *)
Theorem remove_tag_removes
    (u a : string) (w w' : World) (self : ref) (ops : list tag_op)
    (c : Client) (t : string) :
  Client_init u a w = Ok self w' →
  run_tag_ops ops (objects w' self) = Val c →
  t ≠ u → t ≠ a →
  ∃ c', remove_tag t c = Val c'
    ∧ (t ∉ tags c')
    ∧ ∀ t', t' ≠ t → t' ∈ tags c' ↔ t' ∈ tags c.
Proof.
  intros Hinit Hops Hu Ha.
  destruct (Client_init_Ok_inv _ _ _ _ _ Hinit) as (_ & Hself & _).
  assert (H0 : free_tags_once (objects w' self)).
  { rewrite Hself. unfold free_tags_once, initial_tags. simpl.
    rewrite filter_cons_False by (intros [? _]; done).
    rewrite filter_cons_False by (intros [_ ?]; done).
    destruct (default_tag w) as [dt|]; [|apply NoDup_nil_2].
    destruct (decide (dt ≠ u ∧ dt ≠ a)).
    - rewrite filter_cons_True by done. apply NoDup_singleton.
    - rewrite filter_cons_False by done. apply NoDup_nil_2. }
  pose proof (run_tag_ops_free_tags_once _ _ _ H0 Hops) as Hc.
  destruct (run_tag_ops_anchored ops (objects w' self))
    as (c0 & Hc0 & Huu & Haa & _).
  { rewrite Hself. split; simpl.
    - apply elem_of_cons. by left.
    - apply elem_of_cons. right. apply elem_of_cons. by left. }
  rewrite Hops in Hc0. injection Hc0 as <-.
  rewrite Hself in Huu, Haa. simpl in Huu, Haa.
  destruct (remove_tag_total t c) as [c' Hc'].
  exists c'. split; [done|].
  destruct (remove_tag_free_tags_once t c c' Hc Hc') as [_ Hgone].
  split; [apply Hgone; congruence|].
  intros t' Ht'. unfold remove_tag in Hc'.
  destruct (_ && _); [|by injection Hc' as <-].
  destruct (list_remove t (tags c)) as [l|] eqn:Hl; [|done].
  injection Hc' as <-. simpl. by apply (list_remove_other t t' _ _ Hl).
Qed.

Lemma remove_tag_removes_witness :
  ∃ w' c,
    Client_init "abc12345" "10.0.0.5" SampleConfig.red = Ok 0 w'
    ∧ run_tag_ops [AddTag "web"; AddTag "red"] (objects w' 0) = Val c
    ∧ ∃ c', remove_tag "red" c = Val c'
        ∧ ("red" ∉ tags c')
        ∧ ∀ t', t' ≠ "red" → t' ∈ tags c' ↔ t' ∈ tags c.
Proof.
  eexists _, _. split; [reflexivity|]. split; [reflexivity|].
  apply (remove_tag_removes "abc12345" "10.0.0.5" SampleConfig.red _ 0
           [AddTag "web"; AddTag "red"] _ "red" eq_refl eq_refl);
    discriminate.
Defined.

(** ** Registry *)

Lemma count_tag_lookup (d : gmap string nat) (x t : string) :
  count_tag d x !! t = if decide (x = t) then bumped (d !! t) 1 else d !! t.
Proof.
  unfold count_tag. destruct (decide (x = t)) as [->|Hne].
  - destruct (d !! t) as [n|] eqn:Hd; by rewrite lookup_insert_eq.
  - destruct (d !! x); by rewrite lookup_insert_ne.
Qed.

Lemma bumped_bumped (o : option nat) (n m : nat) :
  bumped (bumped o n) m = bumped o (n + m).
Proof.
  destruct n as [|n], m as [|m]; simpl; try done.
  - by rewrite Nat.add_0_r.
  - f_equal. lia.
Qed.

Lemma foldl_count_tag (d : gmap string nat) (l : list string) (t : string) :
  foldl count_tag d l !! t
  = bumped (d !! t) (length (filter (λ x, x = t) l)).
Proof.
  revert d. induction l as [|x l IH]; intros d; [done|].
  simpl. rewrite IH, count_tag_lookup.
  destruct (decide (x = t)) as [->|Hne].
  - rewrite filter_cons_True by done. by rewrite bumped_bumped.
  - by rewrite filter_cons_False.
Qed.

Lemma foldl_get_tags (w : World) (d : gmap string nat) (l : list ref)
    (t : string) :
  foldl (λ d c, foldl count_tag d (tags (objects w c))) d l !! t
  = bumped (d !! t)
      (sum_list ((λ c, length (filter (λ x, x = t) (tags (objects w c))))
                 <$> l)).
Proof.
  revert d. induction l as [|c l IH]; intros d; [done|].
  simpl. by rewrite IH, foldl_count_tag, bumped_bumped.
Qed.

Lemma NoDup_count_le (t : string) (l : list string) :
  NoDup l →
  length (filter (λ x, x = t) l) = if decide (t ∈ l) then 1 else 0.
Proof.
  induction l as [|x l IH]; intros Hnd.
  - rewrite decide_False; [done | apply not_elem_of_nil].
  - apply NoDup_cons in Hnd as [Hx Hnd]. specialize (IH Hnd).
    destruct (decide (x = t)) as [->|Hne].
    + rewrite filter_cons_True by done. simpl. rewrite IH.
      rewrite decide_False by done.
      rewrite decide_True; [done | apply elem_of_cons; by left].
    + rewrite filter_cons_False by done. rewrite IH.
      destruct (decide (t ∈ l)) as [Hin|Hin].
      * rewrite decide_True; [done | apply elem_of_cons; by right].
      * rewrite decide_False; [done|].
        apply not_elem_of_cons. split; [congruence | done].
Qed.

(** X5.  [get_tags] returns, changes nothing and takes no lock.  The
    dictionary it returns has an entry exactly for the tags that occur
    in the tag list of some registered session, and the entry is the
    number of occurrences; when the tag lists of the registered sessions
    are free of repetitions this is the number of registry entries
    holding the tag. *)
Theorem get_tags_counts (w : World) :
  ∃ d, get_tags w = Ok d w
    ∧ (∀ t, d !! t = match tag_count w t with
                     | 0 => None
                     | S n => Some (S n)
                     end)
    ∧ (Forall (λ c, NoDup (tags (objects w c))) (pool_clients w) →
       ∀ t, tag_count w t
            = length (filter (has_tag w t) (pool_clients w))).
Proof.
  eexists. split; [reflexivity|]. split.
  - intros t. rewrite foldl_get_tags, lookup_empty.
    fold (tag_count w t). by destruct (tag_count w t).
  - intros Hnd t. unfold tag_count.
    induction (pool_clients w) as [|c l IH]; [done|].
    apply Forall_cons in Hnd as [Hc Hl]. rewrite fmap_cons. cbn [sum_list].
    rewrite (IH Hl), (NoDup_count_le t _ Hc). unfold has_tag at 2.
    destruct (decide (t ∈ tags (objects w c))).
    + by rewrite filter_cons_True.
    + by rewrite filter_cons_False.
Qed.

Lemma get_tags_counts_witness :
  ∃ d, get_tags SampleRegistry.two_web = Ok d SampleRegistry.two_web
    ∧ d !! "web" = Some 2 ∧ d !! "abc12345" = Some 1 ∧ d !! "db" = None.
Proof.
  destruct (get_tags_counts SampleRegistry.two_web) as (d & Hd & Hcount & _).
  exists d. split; [exact Hd|]. rewrite !Hcount. done.
Defined.

Lemma matching_subseteq (w : World) (tag : string) (c : ref) :
  c ∈ matching w tag → c ∈ pool_clients w.
Proof.
  unfold matching, find_clients_by_tag. case_bool_decide; simpl; [done|].
  by intros [_ ?]%list_elem_of_filter.
Qed.

(** X6.  Once [remove_client] has returned for a session that was
    registered once, the session is shut down and no lookup returns it
    any more, whatever the tag, the wildcard included. *)
Theorem remove_client_then_find (c : ref) (w : World) (l : list ref) :
  clients_lock w = false →
  list_remove c (pool_clients w) = Some l →
  c ∉ l →
  ∃ w', remove_client c w = Ok tt w'
    ∧ keep_alive (objects w' c) = false
    ∧ clients_lock w' = false
    ∧ ∀ tag, c ∉ matching w' tag.
Proof.
  intros Hl Hrm Hc. eexists. split; [by apply remove_client_present|].
  split; [simpl; by rewrite update_eq|]. split; [done|].
  intros tag Hin. apply matching_subseteq in Hin. done.
Qed.

Lemma remove_client_then_find_witness :
  ∃ w', remove_client 0 SampleRegistry.two_web = Ok tt w'
    ∧ keep_alive (objects w' 0) = false
    ∧ clients_lock w' = false
    ∧ ∀ tag, 0 ∉ matching w' tag.
Proof.
  apply (remove_client_then_find 0 SampleRegistry.two_web [1]);
    [reflexivity | reflexivity |].
  intros Hin. apply elem_of_cons in Hin as [Hin|Hin]; [discriminate|].
  by apply elem_of_nil in Hin.
Defined.

(** X7.  Registering a session that is not in the registry and removing
    it again restores the registry's list and frees the lock, but not
    the session: it stays shut down. *)
Theorem add_client_remove_client (c : ref) (w : World) :
  clients_lock w = false →
  c ∉ pool_clients w →
  ∃ w', (add_client c ;; remove_client c) w = Ok tt w'
    ∧ pool_clients w' = pool_clients w
    ∧ clients_lock w' = false
    ∧ objects w' c = shutdown (objects w c)
    ∧ lock_log w' = lock_log w ++ [Acquire; Release; Acquire; Release].
Proof.
  intros Hl Hc. eexists. split.
  { rewrite (bind_Ok _ _ _ _ _ (add_client_free c w Hl)).
    apply remove_client_present; [done|]. simpl.
    by apply list_remove_app_last. }
  simpl. rewrite update_eq, <- !app_assoc. done.
Qed.

Lemma add_client_remove_client_witness :
  ∃ w', (add_client 5 ;; remove_client 5) SampleRegistry.two_web = Ok tt w'
    ∧ pool_clients w' = [0; 1]
    ∧ clients_lock w' = false.
Proof.
  destruct (add_client_remove_client 5 SampleRegistry.two_web)
    as (w' & Hrun & Hpool & Hlock & _).
  - reflexivity.
  - intros Hin.
    repeat (apply elem_of_cons in Hin as [Hin|Hin]; [discriminate|]).
    by apply elem_of_nil in Hin.
  - exists w'. split; [exact Hrun|]. split; [exact Hpool | exact Hlock].
Defined.

(** ** Quote trimming *)

Lemma rstrip_cons_keep (p : ascii → bool) (a : ascii) (s : string) :
  p a = false → PyStr.rstrip p (String a s) = String a (PyStr.rstrip p s).
Proof. intros Ha. simpl. rewrite Ha. by destruct (PyStr.rstrip p s). Qed.

Lemma rstrip_idemp (p : ascii → bool) (s : string) :
  PyStr.rstrip p (PyStr.rstrip p s) = PyStr.rstrip p s.
Proof.
  induction s as [|a s IH]; [done|]. simpl.
  destruct (PyStr.rstrip p s) as [|b r] eqn:Hr.
  - destruct (p a) eqn:Ha; [done|]. simpl. by rewrite Ha.
  - simpl in IH. simpl. destruct (PyStr.rstrip p r) as [|b' r'] eqn:Hr'.
    + destruct (p b) eqn:Hb; [done|]. by injection IH as <-.
    + by rewrite IH.
Qed.

Lemma lstrip_head (p : ascii → bool) (s : string) (a : ascii) (r : string) :
  PyStr.lstrip p s = String a r → p a = false.
Proof.
  induction s as [|b s IH]; simpl; [done|].
  destruct (p b) eqn:Hb; [done|]. by intros [= <- <-].
Qed.

Lemma lstrip_rstrip_lstrip (p : ascii → bool) (s : string) :
  PyStr.lstrip p (PyStr.rstrip p (PyStr.lstrip p s))
  = PyStr.rstrip p (PyStr.lstrip p s).
Proof.
  destruct (PyStr.lstrip p s) as [|a r] eqn:Hs; [done|].
  pose proof (lstrip_head p s a r Hs) as Ha.
  rewrite rstrip_cons_keep by done. simpl. by rewrite Ha.
Qed.

(** Trimming twice is trimming once. *)
Lemma strip_idemp (p : ascii → bool) (s : string) :
  PyStr.strip p (PyStr.strip p s) = PyStr.strip p s.
Proof.
  unfold PyStr.strip. by rewrite lstrip_rstrip_lstrip, rstrip_idemp.
Qed.

Lemma forallb_impl (p q : ascii → bool) (s : string) :
  (∀ a, p a = true → q a = true) →
  PyStr.forallb p s = true → PyStr.forallb q s = true.
Proof.
  intros Hpq. induction s as [|a s IH]; simpl; [done|].
  intros [Ha Hs]%andb_prop. by rewrite (Hpq a Ha), IH.
Qed.

Lemma lstrip_none (p : ascii → bool) (s : string) :
  PyStr.forallb (λ a, negb (p a)) s = true → PyStr.lstrip p s = s.
Proof.
  destruct s as [|a s]; simpl; [done|].
  intros [Ha _]%andb_prop. by apply negb_true_iff in Ha as ->.
Qed.

Lemma rstrip_none (p : ascii → bool) (s : string) :
  PyStr.forallb (λ a, negb (p a)) s = true → PyStr.rstrip p s = s.
Proof.
  induction s as [|a s IH]; simpl; [done|].
  intros [Ha Hs]%andb_prop. apply negb_true_iff in Ha.
  rewrite (IH Hs), Ha. by destruct s.
Qed.

(** A string [generate_uuid] can return holds no quote and is not the
    wildcard: trimming leaves it as it is. *)
Lemma is_uuid_plain (u : string) :
  is_uuid u = true → PyStr.strip PyStr.is_quote u = u ∧ u ≠ "*".
Proof.
  unfold is_uuid. intros [Hlen Hall]%andb_prop. split.
  - assert (Hq : PyStr.forallb (λ a, negb (PyStr.is_quote a)) u = true).
    { eapply forallb_impl; [|exact Hall]. intros a Ha. simpl in Ha.
      unfold PyStr.is_quote.
      destruct (decide (a = PyStr.dquote)) as [->|];
        [by vm_compute in Ha|].
      destruct (decide (a = PyStr.squote)) as [->|];
        [by vm_compute in Ha|].
      by rewrite !bool_decide_eq_false_2. }
    unfold PyStr.strip. by rewrite (lstrip_none _ _ Hq), (rstrip_none _ _ Hq).
  - intros ->. done.
Qed.

(** X8.  A lookup compares the tags of the sessions with the quote-trimmed
    argument: for an argument that does not trim to the wildcard, the
    sessions found are the registered ones that hold the trimmed
    argument.  The trimmed argument never begins or ends with a quote,
    so a tag stored with such a quote (as [add_tag] stores it when given
    one) is matched by no lookup. *)
Theorem find_clients_by_tag_trimmed (w : World) (q : string) :
  PyStr.strip PyStr.is_quote q ≠ "*" →
  (∀ c, c ∈ matching w q ↔
        c ∈ pool_clients w
        ∧ PyStr.strip PyStr.is_quote q ∈ tags (objects w c))
  ∧ (∀ t, PyStr.strip PyStr.is_quote t ≠ t →
          PyStr.strip PyStr.is_quote q ≠ t).
Proof.
  intros Hq. split.
  - intros c. rewrite matching_plain, list_elem_of_filter by done.
    unfold has_tag. tauto.
  - intros t Ht E. apply Ht. rewrite <- E. apply strip_idemp.
Qed.

Lemma find_clients_by_tag_trimmed_witness :
  0 ∈ matching SampleRegistry.two_web SampleRegistry.quoted_web
  ∧ PyStr.strip PyStr.is_quote SampleRegistry.quoted_web
    ≠ SampleRegistry.quoted_web.
Proof.
  destruct (find_clients_by_tag_trimmed SampleRegistry.two_web
              SampleRegistry.quoted_web) as [Hm Hq]; [discriminate|].
  split.
  - apply Hm. split.
    + apply elem_of_cons. by left.
    + vm_compute. apply elem_of_cons. right. apply elem_of_cons. right.
      apply elem_of_cons. by left.
  - apply Hq. discriminate.
Defined.

(** ** Accepting a connection *)

(** The autorun loop touches neither the registry nor the lock, however
    it ends. *)
Lemma autorun_loop_registry (self : ref) (cmds : list string) (w : World) :
  match for_each cmds
          (λ cmd, m ← new_Message cmd None; modify_client self (send m)) w
  with
  | Ok _ w' | Raise _ w' => same_registry w w'
  | _ => False
  end.
Proof.
  revert w. induction cmds as [|cmd cmds IH]; intros w; [done|].
  simpl. unfold mbind at 1, M_bind at 1.
  unfold mbind at 1, M_bind at 1, new_Message.
  destruct (Message_init cmd None (clock w)) as [m|e]; [|done].
  unfold modify_client.
  set (w2 := set_object self _ _).
  specialize (IH w2).
  destruct (for_each cmds _ w2) as [? w'|? w'| |]; done.
Qed.

Lemma Client_init_registry (u a : string) (w : World) :
  match Client_init u a w with
  | Ok _ w' | Raise _ w' => same_registry w w'
  | _ => False
  end.
Proof.
  unfold Client_init. unfold mbind, M_bind at 1.
  set (w0 := bump_ref _).
  pose proof (autorun_loop_registry (next_ref w)
                (flat_map (λ tag, default [] (autoruns w !! tag))
                   (initial_tags (default_tag w) u a)) w0) as H.
  destruct (for_each _ _ w0) as [? w'|? w'| |]; done.
Qed.

(** X9.  A connection is accepted as follows when the lock is free, the
    uuid drawn is one [generate_uuid] can return and no autorun text for
    the seeded tags is blank: the new session is appended to the
    registry, alive, its autorun commands queued, and from then on it is
    found under its uuid and under the wildcard; no other object
    changes. *)
Theorem accept_registers (u a : string) (w : World) :
  clients_lock w = false →
  is_uuid u = true →
  Forall (λ cmd, PyStr.blank cmd = false)
    (autorun_texts w (initial_tags (default_tag w) u a)) →
  ∃ c w',
    accept u a w = Ok c w'
    ∧ pool_clients w' = pool_clients w ++ [c]
    ∧ clients_lock w' = false
    ∧ keep_alive (objects w' c) = true
    ∧ tags (objects w' c) = initial_tags (default_tag w) u a
    ∧ (λ m, command (messages w' m)) <$> send_queue (objects w' c)
      = autorun_texts w (initial_tags (default_tag w) u a)
    ∧ c ∈ matching w' u
    ∧ c ∈ matching w' "*"
    ∧ ∀ r, r ≠ c → objects w' r = objects w r.
Proof.
  intros Hl Hu Hnb.
  destruct (Client_init_ok u a w Hnb)
    as (w1 & Hinit & _ & Hself & Hoth & Hmsg & _ & _ & Hreg & _).
  destruct Hreg as (Hpool & Hlock & _).
  assert (Hl1 : clients_lock w1 = false) by congruence.
  set (c := next_ref w) in *.
  set (texts := autorun_texts w (initial_tags (default_tag w) u a)) in *.
  clearbody texts.
  exists c. eexists. split.
  { unfold accept. rewrite (bind_Ok _ _ _ _ _ Hinit).
    rewrite (bind_Ok _ _ _ _ _ (add_client_free c w1 Hl1)). reflexivity. }
  simpl. rewrite Hself, Hpool. cbn [keep_alive tags send_queue].
  split; [done|]. split; [done|]. split; [done|]. split; [done|].
  split.
  { apply list_eq. intros i. rewrite list_lookup_fmap.
    destruct (texts !! i) as [cmd|] eqn:Hi.
    - rewrite (lookup_seq_lt _ _ i) by (by eapply lookup_lt_Some). simpl.
      by rewrite <- (proj1 (Message_init_command _ _ _ _ (Hmsg i cmd Hi))).
    - rewrite lookup_seq_ge by (by apply lookup_ge_None). done. }
  destruct (is_uuid_plain u Hu) as [Hstrip Hstar].
  split; [|split; [|exact Hoth]].
  - rewrite matching_plain by (simpl; congruence). simpl.
    apply list_elem_of_filter. split.
    + unfold has_tag. simpl. rewrite Hstrip, Hself. simpl.
      apply elem_of_cons. by left.
    + apply elem_of_app. right. apply elem_of_cons. by left.
  - rewrite matching_star by done. simpl.
    apply elem_of_app. right. apply elem_of_cons. by left.
Qed.

Lemma accept_registers_witness :
  ∃ c w',
    accept "abc12345" "10.0.0.5" SampleConfig.red = Ok c w'
    ∧ pool_clients w' = [c]
    ∧ (λ m, command (messages w' m)) <$> send_queue (objects w' c)
      = ["whoami"; "id"]
    ∧ c ∈ matching w' "abc12345".
Proof.
  destruct (accept_registers "abc12345" "10.0.0.5" SampleConfig.red)
    as (c & w' & Hrun & Hpool & _ & _ & _ & Hq & Hm & _).
  - reflexivity.
  - reflexivity.
  - simpl. repeat constructor.
  - exists c, w'. split; [exact Hrun|]. split; [exact Hpool|].
    split; [exact Hq | exact Hm].
Defined.

(** X10.  When a text the autorun table lists for a seeded tag is blank,
    accepting the connection raises [IndexError] before the session is
    registered: the registry and its lock are as they were. *)
Theorem accept_blank_autorun (u a : string) (w : World) :
  Exists (λ cmd, PyStr.blank cmd = true)
    (autorun_texts w (initial_tags (default_tag w) u a)) →
  ∃ w', accept u a w = Raise IndexError w'
    ∧ pool_clients w' = pool_clients w
    ∧ clients_lock w' = clients_lock w
    ∧ lock_log w' = lock_log w.
Proof.
  intros Hex. destruct (Client_init_blank u a w Hex) as [w' Hw'].
  pose proof (Client_init_registry u a w) as Hreg. rewrite Hw' in Hreg.
  exists w'. split; [|exact Hreg].
  unfold accept. by rewrite (bind_Raise _ _ _ _ _ Hw').
Qed.

Lemma accept_blank_autorun_witness :
  ∃ w', accept "abc12345" "10.0.0.5" SampleConfig.red_blank_line
        = Raise IndexError w'
    ∧ pool_clients w' = []
    ∧ clients_lock w' = false.
Proof.
  destruct (accept_blank_autorun "abc12345" "10.0.0.5"
              SampleConfig.red_blank_line)
    as (w' & Hrun & Hpool & Hlock & _).
  - simpl. apply Exists_cons. right. apply Exists_cons. by left.
  - exists w'. split; [exact Hrun|]. split; [exact Hpool | exact Hlock].
Defined.

(** ** Shell commands *)

Section mapped_facts.
  Variable f : Client → Client.

Lemma mapped_frame (l : list ref) (w : World) :
  same_config w (mapped f l w) ∧ same_registry w (mapped f l w)
  ∧ outputs (mapped f l w) = outputs w
  ∧ next_ref (mapped f l w) = next_ref w
  ∧ messages (mapped f l w) = messages w.
Proof.
  revert w. induction l as [|c l IH]; intros w; [done|].
  unfold mapped. simpl. apply (IH (set_object c _ w)).
Qed.

Lemma mapped_object (l : list ref) (w : World) (c : ref) :
  objects (mapped f l w) c = Nat.iter (occurrences c l) f (objects w c).
Proof.
  revert w. induction l as [|x l IH]; intros w; [done|].
  unfold mapped. simpl. fold (mapped f l (set_object x (f (objects w x)) w)).
  rewrite IH. simpl. unfold occurrences.
  destruct (decide (x = c)) as [->|Hne].
  - rewrite update_eq, filter_cons_True by done.
    cbn [length]. by rewrite Nat.iter_succ_r.
  - by rewrite update_ne, filter_cons_False.
Qed.

Lemma for_found_mapped (fnd : found) (w : World) :
  for_found fnd (λ c, modify_client c f) w
  = Ok tt (mapped f (found_list w fnd) w).
Proof.
  by apply for_found_fold with
    (step := λ c w, set_object c (f (objects w c)) w).
Qed.

End mapped_facts.

Lemma occurrences_not_elem (c : ref) (l : list ref) :
  c ∉ l → occurrences c l = 0.
Proof.
  intros Hc. unfold occurrences. rewrite filter_none; [done|].
  intros x Hx ->. done.
Qed.

Lemma occurrences_NoDup (c : ref) (l : list ref) :
  NoDup l → c ∈ l → occurrences c l = 1.
Proof.
  intros Hnd Hc. unfold occurrences.
  induction l as [|x l IH]; [by apply elem_of_nil in Hc|].
  apply NoDup_cons in Hnd as [Hx Hnd].
  destruct (decide (x = c)) as [->|Hne].
  - rewrite filter_cons_True by done. simpl.
    by rewrite (filter_none _ l) by (intros y Hy ->; done).
  - rewrite filter_cons_False by done. apply IH; [done|].
    apply elem_of_cons in Hc as [->|Hc]; done.
Qed.

Lemma add_tag_idemp (t : string) (c : Client) :
  add_tag t (add_tag t c) = add_tag t c.
Proof.
  apply add_tag_present. unfold add_tag. case_bool_decide; [done|].
  simpl. apply elem_of_app. right. apply elem_of_cons. by left.
Qed.

Lemma add_tag_iter (t : string) (c : Client) (k : nat) :
  Nat.iter (S k) (add_tag t) c = add_tag t c.
Proof.
  induction k as [|k IH]; [done|].
  change (add_tag t (Nat.iter (S k) (add_tag t) c) = add_tag t c).
  rewrite IH. apply add_tag_idemp.
Qed.

Lemma add_tag_holds (t : string) (c : Client) : t ∈ tags (add_tag t c).
Proof.
  unfold add_tag. case_bool_decide; [done|]. simpl.
  apply elem_of_app. right. apply elem_of_cons. by left.
Qed.

(** X11.  [addtag search new] gives the tag [new] to every session the
    search tag selects and to no other: a selected session that held it
    already is left as it is, the others get it appended after their
    tags; the registry is not changed.  When [new] has no surrounding
    quote and is not the wildcard, all of them are found under it
    afterwards.  With any other number of arguments the command prints a
    message and changes nothing. *)
Theorem do_addtag_tags_selected
    (search_tag tag_to_add : string) (sh : Console) (w : World) :
  ∃ w',
    do_addtag [search_tag; tag_to_add] sh w = Ok sh w'
    ∧ same_registry w w'
    ∧ (∀ c, c ∈ matching w search_tag →
            objects w' c = add_tag tag_to_add (objects w c)
            ∧ tag_to_add ∈ tags (objects w' c))
    ∧ (∀ c, c ∉ matching w search_tag → objects w' c = objects w c)
    ∧ (PyStr.strip PyStr.is_quote tag_to_add = tag_to_add →
       tag_to_add ≠ "*" →
       ∀ c, c ∈ matching w search_tag → c ∈ matching w' tag_to_add)
    ∧ (∀ args, length args ≠ 2 →
         do_addtag args sh w
         = Ok (print "[-] Must provide 2 arguments. Search tag, and new tag"
                 sh) w).
Proof.
  exists (mapped (add_tag tag_to_add) (matching w search_tag) w).
  destruct (mapped_frame (add_tag tag_to_add) (matching w search_tag) w)
    as (_ & Hreg & _).
  assert (Hsel : ∀ c, c ∈ matching w search_tag →
            objects (mapped (add_tag tag_to_add) (matching w search_tag) w) c
            = add_tag tag_to_add (objects w c)).
  { intros c Hc. rewrite mapped_object.
    destruct (occurrences_elem c _ Hc) as [k ->]. apply add_tag_iter. }
  split.
  { unfold do_addtag, matching.
    destruct (find_clients_by_tag_pure search_tag w) as [f Hf].
    rewrite (bind_Ok _ _ _ _ _ Hf), Hf.
    by rewrite (bind_Ok _ _ _ _ _ (for_found_mapped _ f w)). }
  split; [done|]. split.
  { intros c Hc. rewrite (Hsel c Hc). split; [done | apply add_tag_holds]. }
  split.
  { intros c Hc. by rewrite mapped_object, occurrences_not_elem. }
  split.
  { intros Hstrip Hstar c Hc.
    rewrite matching_plain by congruence. rewrite Hstrip.
    apply list_elem_of_filter. split.
    - unfold has_tag. rewrite (Hsel c Hc). apply add_tag_holds.
    - destruct Hreg as [-> _]. by apply matching_subseteq in Hc. }
  intros args Hlen. by destruct args as [|? [|? [|? ?]]].
Qed.

Lemma do_addtag_tags_selected_witness :
  ∃ w',
    do_addtag ["abc12345"; "lab"] (mk_Console "> " []) SampleRegistry.two_web
    = Ok (mk_Console "> " []) w'
    ∧ tags (objects w' 0) = ["abc12345"; "10.0.0.5"; "web"; "lab"]
    ∧ objects w' 1 = SampleRegistry.B
    ∧ 0 ∈ matching w' "lab".
Proof.
  destruct (do_addtag_tags_selected "abc12345" "lab" (mk_Console "> " [])
              SampleRegistry.two_web)
    as (w' & Hrun & _ & Hsel & Hoth & Hfind & _).
  assert (H0 : 0 ∈ matching SampleRegistry.two_web "abc12345")
    by (apply elem_of_cons; by left).
  exists w'. split; [exact Hrun|]. split; [|split].
  - by rewrite (proj1 (Hsel 0 H0)).
  - rewrite (Hoth 1); [reflexivity|]. intros Hin.
    apply elem_of_cons in Hin as [Hin|Hin]; [discriminate|].
    by apply elem_of_nil in Hin.
  - apply Hfind; [reflexivity | discriminate | exact H0].
Defined.

Lemma client_remove_tag_step (t : string) (c : ref) (w : World) :
  client_remove_tag t c w = Ok tt (set_object c (removed t (objects w c)) w).
Proof.
  unfold client_remove_tag, removed.
  by destruct (remove_tag_total t (objects w c)) as [c' ->].
Qed.

Lemma removed_fields (t : string) (c : Client) :
  uuid (removed t c) = uuid c ∧ addr (removed t c) = addr c
  ∧ (tags_anchored c → tags_anchored (removed t c)).
Proof.
  unfold removed. destruct (remove_tag_total t c) as [c' Hc']. rewrite Hc'.
  destruct (remove_tag_fields _ _ _ Hc') as (Hu & Ha & _).
  split; [done|]. split; [done|]. intros [Hcu Hca]. split.
  - rewrite Hu. eapply remove_tag_keeps; eauto.
  - rewrite Ha. eapply remove_tag_keeps; eauto.
Qed.

Lemma removed_iter_fields (t : string) (c : Client) (k : nat) :
  uuid (Nat.iter k (removed t) c) = uuid c
  ∧ addr (Nat.iter k (removed t) c) = addr c
  ∧ (tags_anchored c → tags_anchored (Nat.iter k (removed t) c)).
Proof.
  induction k as [|k (IHu & IHa & IHt)]; [done|]. simpl.
  destruct (removed_fields t (Nat.iter k (removed t) c)) as (-> & -> & Ht).
  split; [done|]. split; [done|]. intros Hc. by apply Ht, IHt.
Qed.

(** X12.  [removetag search tag] never raises.  It calls [remove_tag] on
    every session the search tag selects, once per registration, and
    touches no other session and not the registry; whatever the tag, the
    uuid and the address of a session stay in its tag list, also when the
    tag to remove is the very tag the session was selected by.  With any
    other number of arguments it prints a message and changes nothing. *)
Theorem do_removetag_selected
    (search_tag tag_to_remove : string) (sh : Console) (w : World) :
  ∃ w',
    do_removetag [search_tag; tag_to_remove] sh w = Ok sh w'
    ∧ same_registry w w'
    ∧ (∀ c, uuid (objects w' c) = uuid (objects w c)
            ∧ addr (objects w' c) = addr (objects w c)
            ∧ (tags_anchored (objects w c) → tags_anchored (objects w' c)))
    ∧ (NoDup (pool_clients w) →
       ∀ c, c ∈ matching w search_tag →
            remove_tag tag_to_remove (objects w c) = Val (objects w' c))
    ∧ (∀ c, c ∉ matching w search_tag → objects w' c = objects w c)
    ∧ (∀ args, length args ≠ 2 →
         do_removetag args sh w
         = Ok (print
                 "[-] Must provide 2 arguments. Search tag, and tag to remove"
                 sh) w).
Proof.
  exists (mapped (removed tag_to_remove) (matching w search_tag) w).
  destruct (mapped_frame (removed tag_to_remove) (matching w search_tag) w)
    as (_ & Hreg & _).
  split.
  { unfold do_removetag, matching.
    destruct (find_clients_by_tag_pure search_tag w) as [f Hf].
    rewrite (bind_Ok _ _ _ _ _ Hf), Hf.
    pose proof (for_found_fold _ _ (client_remove_tag_step tag_to_remove)
                  (λ c w, eq_refl) f w) as Hloop.
    by rewrite (bind_Ok _ _ _ _ _ Hloop). }
  split; [done|]. split.
  { intros c. rewrite mapped_object. apply removed_iter_fields. }
  split.
  { intros Hnd c Hc. rewrite mapped_object.
    rewrite occurrences_NoDup; [| |done].
    - simpl. unfold removed.
      by destruct (remove_tag_total tag_to_remove (objects w c)) as [c' ->].
    - unfold matching, find_clients_by_tag. case_bool_decide; simpl; [done|].
      by apply NoDup_filter. }
  split.
  { intros c Hc. by rewrite mapped_object, occurrences_not_elem. }
  intros args Hlen. by destruct args as [|? [|? [|? ?]]].
Qed.

Lemma do_removetag_selected_witness :
  ∃ w',
    do_removetag ["web"; "abc12345"] (mk_Console "> " [])
      SampleRegistry.two_web = Ok (mk_Console "> " []) w'
    ∧ objects w' 0 = SampleRegistry.A
    ∧ objects w' 1 = SampleRegistry.B.
Proof.
  destruct (do_removetag_selected "web" "abc12345" (mk_Console "> " [])
              SampleRegistry.two_web)
    as (w' & Hrun & _ & _ & Hsel & _).
  assert (Hnd : NoDup (pool_clients SampleRegistry.two_web)).
  { simpl. apply NoDup_cons. split.
    - intros Hin. apply elem_of_cons in Hin as [Hin|Hin]; [discriminate|].
      by apply elem_of_nil in Hin.
    - apply NoDup_singleton. }
  exists w'. split; [exact Hrun|]. split.
  - assert (H0 : 0 ∈ matching SampleRegistry.two_web "web")
      by (apply elem_of_cons; by left).
    pose proof (Hsel Hnd 0 H0) as E.
    change (Val SampleRegistry.A = Val (objects w' 0)) in E.
    by injection E as <-.
  - assert (H1 : 1 ∈ matching SampleRegistry.two_web "web")
      by (apply elem_of_cons; right; apply elem_of_cons; by left).
    pose proof (Hsel Hnd 1 H1) as E.
    change (Val (mk_Client true "zzz98765" "10.0.0.6" []
                   ["zzz98765"; "10.0.0.6"; "web"])
            = Val (objects w' 1)) in E.
    by injection E as <-.
Defined.

Lemma matching_frame (w w' : World) (tag : string) :
  pool_clients w' = pool_clients w → objects w' = objects w →
  matching w' tag = matching w tag.
Proof.
  intros Hp Ho. unfold matching, find_clients_by_tag.
  case_bool_decide; simpl; [done|]. rewrite Hp.
  apply list_filter_iff. intros c. unfold has_tag. by rewrite Ho.
Qed.

(** X13.  [run] needs a tag and a command: with no argument at all, or
    with arguments whose part after the tag holds no token (a tag alone,
    for one), it raises [IndexError] and changes nothing: no message is
    created and no queue is touched. *)
Theorem do_run_without_command (parsed_args : list string) (w : World) :
  parsed_args = []
  ∨ PyStr.blank (join " " (tail parsed_args)) = true →
  do_run parsed_args w = Raise IndexError w.
Proof.
  intros [->|Hb]; [done|].
  destruct parsed_args as [|tag rest]; [done|].
  unfold do_run. simpl. unfold mbind, M_bind. simpl. unfold new_Message.
  simpl in Hb. by rewrite (Message_init_blank _ None _ eq_refl Hb).
Qed.

Lemma do_run_without_command_witness :
  do_run ["web"] SampleRegistry.two_web
  = Raise IndexError SampleRegistry.two_web.
Proof. apply do_run_without_command. right. reflexivity. Defined.

(** X14.  [run tag word ...] with a command that is not blank creates
    one message, whose text is the words joined by single spaces, with
    no result and the timestamp of the clock, and appends that one
    object to the queue of every session the tag selects; the sessions'
    other fields, the other messages and the registry are left alone. *)
Theorem do_run_enqueues (tag : string) (rest : list string) (w : World) :
  PyStr.blank (join " " rest) = false →
  ∃ w',
    do_run (tag :: rest) w = Ok tt w'
    ∧ next_ref w' = S (next_ref w)
    ∧ command (messages w' (next_ref w)) = join " " rest
    ∧ results (messages w' (next_ref w)) = None
    ∧ timestamp (messages w' (next_ref w)) = generate_timestamp (clock w)
    ∧ (∀ r, r ≠ next_ref w → messages w' r = messages w r)
    ∧ (∀ c, objects w' c =
            set_send_queue
              (send_queue (objects w c)
               ++ replicate (occurrences c (matching w tag)) (next_ref w))
              (objects w c))
    ∧ same_registry w w'.
Proof.
  intros Hb.
  destruct (Message_init_nonblank _ None (clock w) Hb) as [msg Hmsg].
  set (m := next_ref w).
  set (w1 := bump_ref (set_message m msg w)).
  exists (sent_to m (matching w1 tag) w1).
  destruct (sent_to_frame m (matching w1 tag) w1)
    as (_ & Hreg & _ & Hnext & Hmsgs).
  split.
  { unfold do_run. simpl. unfold mbind at 1, M_bind at 1. simpl.
    unfold mbind at 1, M_bind at 1, new_Message. rewrite Hmsg.
    apply send_message_by_tag_run. }
  split; [by rewrite Hnext|]. rewrite Hmsgs. simpl. rewrite update_eq.
  destruct (Message_init_command _ _ _ _ Hmsg) as [Hc Hr].
  split; [done|]. split; [done|].
  split; [by apply Message_init_timestamp in Hmsg|].
  split; [by intros r Hr'; apply update_ne|].
  split; [|done].
  intros c. rewrite sent_to_object.
  by rewrite (matching_frame w w1 tag eq_refl eq_refl).
Qed.

Lemma do_run_enqueues_witness :
  ∃ w',
    do_run ["web"; "echo"; "hi"] SampleRegistry.two_web = Ok tt w'
    ∧ command (messages w' 3) = "echo hi"
    ∧ send_queue (objects w' 0) = [3]
    ∧ send_queue (objects w' 1) = [3].
Proof.
  destruct (do_run_enqueues "web" ["echo"; "hi"] SampleRegistry.two_web)
    as (w' & Hrun & _ & Hcmd & _ & _ & _ & Hobj & _); [reflexivity|].
  exists w'. split; [exact Hrun|]. split; [exact Hcmd|].
  by rewrite !Hobj.
Defined.

(** X15.  [settag] without an argument raises [IndexError] and leaves the
    default tag as it was.  With a non-empty first token it makes that
    token the default tag and shows it in the prompt, and the next
    session built holds it as its third tag, after the uuid and the
    address. *)
Theorem do_settag_seeds_sessions
    (t : string) (rest : list string) (sh : Console) (u a : string)
    (w : World) :
  t ≠ EmptyString →
  Forall (λ cmd, PyStr.blank cmd = false) (autorun_texts w [u; a; t]) →
  do_settag [] sh w = Raise IndexError w
  ∧ ∃ w1,
      do_settag (t :: rest) sh w = Ok (set_prompt (t +:+ "> ") sh) w1
      ∧ default_tag w1 = Some t
      ∧ same_registry w w1
      ∧ ∃ c w2,
          Client_init u a w1 = Ok c w2
          ∧ tags (objects w2 c) = [u; a; t].
Proof.
  intros Ht Hnb. split; [done|].
  exists (set_default_tag (Some t) w). split.
  { unfold do_settag. simpl. unfold mbind, M_bind. simpl.
    by destruct t. }
  split; [done|]. split; [done|].
  destruct (Client_init_ok u a (set_default_tag (Some t) w))
    as (w2 & Hrun & _ & Hself & _); [exact Hnb|].
  eexists _, w2. split; [exact Hrun|]. by rewrite Hself.
Qed.

Lemma do_settag_seeds_sessions_witness :
  ∃ w1 c w2,
    do_settag ["lab"] (mk_Console "> " []) Sample.start
    = Ok (mk_Console "lab> " []) w1
    ∧ Client_init "abc12345" "10.0.0.5" w1 = Ok c w2
    ∧ tags (objects w2 c) = ["abc12345"; "10.0.0.5"; "lab"].
Proof.
  destruct (do_settag_seeds_sessions "lab" [] (mk_Console "> " [])
              "abc12345" "10.0.0.5" Sample.start)
    as (_ & w1 & Hrun & _ & _ & c & w2 & Hinit & Htags).
  - discriminate.
  - simpl. constructor.
  - exists w1, c, w2. split; [exact Hrun|]. split; [exact Hinit | exact Htags].
Defined.

Lemma autorun_texts_insert (w : World) (k : string) (lines : list string)
    (tags0 : list string) :
  autorun_texts (set_autoruns (<[k := lines]> (autoruns w)) w) tags0
  = flat_map (λ t, if decide (t = k) then lines
                   else default [] (autoruns w !! t)) tags0.
Proof.
  unfold autorun_texts. simpl.
  induction tags0 as [|t tags0 IH]; [done|]. simpl. rewrite IH. f_equal.
  destruct (decide (t = k)) as [->|Hne].
  - by rewrite lookup_insert_eq.
  - by rewrite lookup_insert_ne.
Qed.

(** X16.  [settagautos tag file] stores the lines of a readable file as
    the autorun list of the quote-trimmed tag, replacing what was there
    and leaving the lists of all other tags as they were; with [none] in
    place of the file it stores the empty list.  Sessions and registry
    are not touched.  A file that cannot be read, or another number of
    arguments, prints a message and changes nothing. *)
Theorem do_settagautos_stores
    (files : gmap string (list string)) (tag autoruns_file : string)
    (sh : Console) (w : World) :
  let k := PyStr.strip PyStr.is_quote tag in
  let lines :=
    if bool_decide (autoruns_file = "none") then Some []
    else files !! autoruns_file in
  match lines with
  | Some l =>
      ∃ w', do_settagautos files [tag; autoruns_file] sh w = Ok sh w'
        ∧ autoruns w' !! k = Some l
        ∧ (∀ t, t ≠ k → autoruns w' !! t = autoruns w !! t)
        ∧ (∀ tags0, autorun_texts w' tags0
             = flat_map (λ t, if decide (t = k) then l
                              else default [] (autoruns w !! t)) tags0)
        ∧ same_registry w w' ∧ objects w' = objects w
        ∧ default_tag w' = default_tag w
  | None =>
      do_settagautos files [tag; autoruns_file] sh w
      = Ok (print "[-] Issue with provided file" sh) w
  end
  ∧ ∀ args, length args ≠ 2 →
      do_settagautos files args sh w
      = Ok (print "[-] Must provide 2 arguments. tag and valid file" sh) w.
Proof.
  intros k lines. split.
  - unfold lines, do_settagautos. fold k.
    destruct (bool_decide (autoruns_file = "none")).
    + eexists. split; [reflexivity|]. simpl.
      split; [apply lookup_insert_eq|].
      split; [by intros t Ht; apply lookup_insert_ne|].
      split; [apply autorun_texts_insert | done].
    + destruct (files !! autoruns_file) as [l|]; [|done].
      eexists. split; [reflexivity|]. simpl.
      split; [apply lookup_insert_eq|].
      split; [by intros t Ht; apply lookup_insert_ne|].
      split; [apply autorun_texts_insert | done].
  - intros args Hlen. by destruct args as [|? [|? [|? ?]]].
Qed.

Lemma do_settagautos_stores_witness :
  ∃ w',
    do_settagautos {[ "autos.txt" := ["uname -a"] ]} ["'red'"; "autos.txt"]
      (mk_Console "> " []) SampleConfig.red = Ok (mk_Console "> " []) w'
    ∧ autoruns w' !! "red" = Some ["uname -a"]
    ∧ autorun_texts w' ["abc12345"; "10.0.0.5"; "red"] = ["uname -a"].
Proof.
  pose proof (do_settagautos_stores {[ "autos.txt" := ["uname -a"] ]}
                "'red'" "autos.txt" (mk_Console "> " []) SampleConfig.red)
    as [H _].
  destruct H as (w' & Hrun & Hk & _ & Htexts & _).
  exists w'. split; [exact Hrun|]. split; [exact Hk|].
  rewrite Htexts. reflexivity.
Defined.

(** X17.  [disconnect] without an argument raises [IndexError] and
    changes nothing.  [disconnect tag] for a tag that, quotes trimmed,
    is not the wildcard and is held by no registered session returns
    with the state unchanged, whether the registry lock is free or
    held. *)
Theorem do_disconnect_unknown (tag : string) (rest : list string) (w : World) :
  PyStr.strip PyStr.is_quote tag ≠ "*" →
  (∀ c, c ∈ pool_clients w →
        PyStr.strip PyStr.is_quote tag ∉ tags (objects w c)) →
  do_disconnect [] w = Raise IndexError w
  ∧ do_disconnect (tag :: rest) w = Ok tt w.
Proof.
  intros Ht Hnone. split; [done|].
  unfold do_disconnect. simpl. unfold mbind at 1, M_bind at 1. simpl.
  unfold remove_clients_by_tag.
  rewrite (bind_Ok _ _ _ _ _ (find_clients_by_tag_plain tag w Ht)).
  by rewrite filter_none.
Qed.

Lemma do_disconnect_unknown_witness :
  do_disconnect [] SampleRegistry.two_web_locked
  = Raise IndexError SampleRegistry.two_web_locked
  ∧ do_disconnect ["db"] SampleRegistry.two_web_locked
    = Ok tt SampleRegistry.two_web_locked.
Proof.
  apply do_disconnect_unknown; [discriminate|].
  intros c Hc. simpl in Hc.
  apply elem_of_cons in Hc as [->|Hc];
    [|apply elem_of_cons in Hc as [->|Hc]; [|by apply elem_of_nil in Hc]].
  all: vm_compute; intros Hin;
    repeat (apply elem_of_cons in Hin as [Hin|Hin]; [discriminate|]);
    by apply elem_of_nil in Hin.
Defined.




(** ** The connection handler *)

Lemma handler_turn_answers
    (c : ref) (data : string) (w : World) (m : ref) (q : list ref) :
  out_dir w = None →
  keep_alive (objects w c) = true →
  send_queue (objects w c) = m :: q →
  ∃ w',
    handler_turn c false (Answers data) w = Ok Delivered w'
    ∧ objects w' c = set_send_queue q (objects w c)
    ∧ messages w' m = set_results (messages w m) data
    ∧ (∀ r, r ≠ m → messages w' r = messages w r)
    ∧ outputs w' =
        outputs w
        ++ [Printed (uuid (objects w c)) (addr (objects w c))
              (get_fullname (messages w m)) (Some data)]
    ∧ out_dir w' = None
    ∧ same_registry w w'.
Proof.
  intros Hd Hk Hq.
  destruct (handle_response_head c data w m q Hq)
    as (w' & Hrun & Hc & _ & Hm & Hmo & Hout & Hcfg & Hreg & _).
  rewrite deliverable_console in Hrun, Hout by done.
  exists w'. split.
  { unfold handler_turn. rewrite Hk, Hq.
    by rewrite (bind_Ok _ _ _ _ _ Hrun). }
  split; [done|]. split; [done|]. split; [done|]. split.
  { rewrite Hout. unfold delivery. by rewrite Hd. }
  split; [|done].
  destruct Hcfg as (_ & _ & -> & _). done.
Qed.

(** The passes of a handler whose reader has been fed the end of the
    stream. *)
Lemma handler_passes_eof
    (c : ref) (q rest : list ref) (ps : list peer) (w0 w : World) :
  length ps = length q →
  Forall (λ p, p ≠ Resets) ps →
  out_dir w = None →
  keep_alive (objects w c) = true →
  send_queue (objects w c) = q ++ rest →
  uuid (objects w c) = uuid (objects w0 c) →
  addr (objects w c) = addr (objects w0 c) →
  (∀ m, get_fullname (messages w m) = get_fullname (messages w0 m)) →
  ∃ w',
    handler_passes true c ((λ p, (false, p)) <$> ps) w = Ok Continue w'
    ∧ send_queue (objects w' c) = rest
    ∧ outputs w' =
        outputs w
        ++ ((λ m, Printed (uuid (objects w0 c)) (addr (objects w0 c))
                    (get_fullname (messages w0 m)) (Some EmptyString))
            <$> q)
    ∧ same_registry w w'.
Proof.
  revert ps w. induction q as [|m q IH]; intros [|p ps] w Hlen Hps Hd Hk Hq Hu Ha Hm;
    try discriminate Hlen.
  - exists w. simpl. by rewrite app_nil_r.
  - simpl in Hq. injection Hlen as Hlen.
    apply Forall_cons in Hps as [Hp Hps].
    assert (Hcol : collected true p = Answers EmptyString)
      by (by destruct p).
    destruct (handler_turn_answers c EmptyString w m _ Hd Hk Hq)
      as (w1 & Hrun & Hc1 & Hm1 & Hmo & Hout & Hd1 & Hreg).
    destruct (IH ps w1) as (w' & Hloop & Hq' & Hout' & Hreg').
    + done.
    + done.
    + done.
    + by rewrite Hc1.
    + by rewrite Hc1.
    + by rewrite Hc1.
    + by rewrite Hc1.
    + intros m'. destruct (decide (m' = m)) as [->|Hne].
      * rewrite Hm1, <- Hm. done.
      * by rewrite Hmo.
    + exists w'. split.
      { rewrite fmap_cons. cbn [handler_passes]. rewrite Hcol.
        by rewrite (bind_Ok _ _ _ _ _ Hrun). }
      split; [done|]. split.
      { rewrite Hout', Hout, <- app_assoc. simpl. by rewrite Hu, Ha, Hm. }
      destruct Hreg as (? & ? & ?), Hreg' as (? & ? & ?).
      repeat split; congruence.
Qed.

(** X19.  Commands are taken in the order they were queued, one per
    pass, but only the first pass that reads records what the peer sent.
    The read loop calls [reader.feed_eof()] after its first [read], so
    from the second such pass on the reader returns the empty bytes at
    once: while the session is alive and the connection holds, the
    record printed for the oldest queued message carries the peer's
    answer, and the record printed for every later one carries the empty
    string, whatever the peer sends; what was queued behind them is
    still queued, and the registry is not touched. *)
Theorem handler_loop_first_answer_only
    (c m : ref) (q rest : list ref) (d : string) (ps : list peer)
    (w : World) :
  out_dir w = None →
  keep_alive (objects w c) = true →
  send_queue (objects w c) = m :: q ++ rest →
  length ps = length q →
  Forall (λ p, p ≠ Resets) ps →
  ∃ w',
    handler_loop c ((false, Answers d) :: ((λ p, (false, p)) <$> ps)) w
    = Ok Continue w'
    ∧ send_queue (objects w' c) = rest
    ∧ outputs w' =
        outputs w
        ++ Printed (uuid (objects w c)) (addr (objects w c))
             (get_fullname (messages w m)) (Some d)
           :: ((λ m', Printed (uuid (objects w c)) (addr (objects w c))
                        (get_fullname (messages w m')) (Some EmptyString))
               <$> q)
    ∧ same_registry w w'.
Proof.
  intros Hd Hk Hq Hlen Hps.
  destruct (handler_turn_answers c d w m _ Hd Hk Hq)
    as (w1 & Hrun & Hc1 & Hm1 & Hmo & Hout & Hd1 & Hreg).
  destruct (handler_passes_eof c q rest ps w w1)
    as (w' & Hloop & Hq' & Hout' & Hreg'); try done.
  - by rewrite Hc1.
  - by rewrite Hc1.
  - by rewrite Hc1.
  - by rewrite Hc1.
  - intros m'. destruct (decide (m' = m)) as [->|Hne].
    + by rewrite Hm1.
    + by rewrite Hmo.
  - exists w'. split.
    { unfold handler_loop. cbn [handler_passes collected].
      by rewrite (bind_Ok _ _ _ _ _ Hrun). }
    split; [done|]. split.
    { rewrite Hout', Hout, <- app_assoc. done. }
    destruct Hreg as (? & ? & ?), Hreg' as (? & ? & ?).
    repeat split; congruence.
Qed.

Lemma handler_loop_first_answer_only_witness :
  ∃ w',
    handler_loop 0 [(false, Answers "root"); (false, Answers "uid=0(root)")]
      SampleSession.connected = Ok Continue w'
    ∧ send_queue (objects w' 0) = []
    ∧ outputs w' =
        [Printed "abc12345" "10.0.0.5" "whoami.20240309070501" (Some "root");
         Printed "abc12345" "10.0.0.5" "id.20240309070501"
           (Some EmptyString)].
Proof.
  destruct (handler_loop_first_answer_only 0 1 [2] [] "root"
              [Answers "uid=0(root)"] SampleSession.connected)
    as (w' & Hrun & Hq & Hout & _).
  - reflexivity.
  - reflexivity.
  - reflexivity.
  - reflexivity.
  - repeat constructor; discriminate.
  - exists w'. split; [exact Hrun|]. split; [exact Hq|]. rewrite Hout.
    reflexivity.
Defined.

(** X20.  Once [remove_client] has returned for a session, the next pass
    of its handler leaves the loop at once, whatever the network
    reports and whether or not its reader has read before: nothing is
    taken from the queue, so the commands still queued are never sent,
    and nothing else changes. *)
Theorem handler_stops_after_remove (c : ref) (w : World) (l : list ref) :
  clients_lock w = false →
  list_remove c (pool_clients w) = Some l →
  ∃ w1,
    remove_client c w = Ok tt w1
    ∧ send_queue (objects w1 c) = send_queue (objects w c)
    ∧ (∀ conn_lost p script,
         handler_loop c ((conn_lost, p) :: script) w1 = Ok Closed w1)
    ∧ ∀ eof conn_lost p script,
        handler_passes eof c ((conn_lost, p) :: script) w1 = Ok Closed w1.
Proof.
  intros Hl Hrm. eexists. split; [by apply remove_client_present|].
  split; [simpl; by rewrite update_eq|].
  assert (Hstop : ∀ eof conn_lost p script,
            handler_passes eof c ((conn_lost, p) :: script)
              (set_lock false Release
                 (set_pool_clients l (remove_client_entered c w)))
            = Ok Closed
                (set_lock false Release
                   (set_pool_clients l (remove_client_entered c w)))).
  { intros eof conn_lost p script. cbn [handler_passes].
    unfold mbind, M_bind, handler_turn. simpl. by rewrite update_eq. }
  split; [|exact Hstop].
  intros conn_lost p script. apply Hstop.
Qed.

Lemma handler_stops_after_remove_witness :
  ∃ w1,
    remove_client 0 SampleSession.connected = Ok tt w1
    ∧ send_queue (objects w1 0) = [1; 2]
    ∧ handler_loop 0 [(false, Answers "root")] w1 = Ok Closed w1.
Proof.
  destruct (handler_stops_after_remove 0 SampleSession.connected [])
    as (w1 & Hrun & Hq & Hstop & _); [reflexivity | reflexivity |].
  exists w1. split; [exact Hrun|]. split; [exact Hq | apply Hstop].
Defined.

(** X21.  How a connection ends for a live, registered session when the
    lock is free.  If the transport reports the connection lost, the
    pass removes the session from the registry, shuts it down and leaves
    the loop, the queue untouched.  If the connection is reset after a
    command was taken from the queue, the pass removes and shuts down
    the session and returns; the command taken is gone from the queue,
    has no result stored and is not handed to [process_response].  With
    an empty queue and the connection up the pass changes nothing. *)
Theorem handler_turn_connection_ends
    (c : ref) (w : World) (l : list ref) (p : peer) :
  clients_lock w = false →
  keep_alive (objects w c) = true →
  list_remove c (pool_clients w) = Some l →
  (∃ w', handler_turn c true p w = Ok Closed w'
     ∧ pool_clients w' = l
     ∧ objects w' c = shutdown (objects w c)
     ∧ outputs w' = outputs w)
  ∧ (∀ m q, send_queue (objects w c) = m :: q →
     ∃ w', handler_turn c false Resets w = Ok Returned w'
       ∧ pool_clients w' = l
       ∧ objects w' c = shutdown (set_send_queue q (objects w c))
       ∧ messages w' = messages w
       ∧ outputs w' = outputs w)
  ∧ (send_queue (objects w c) = [] →
     handler_turn c false p w = Ok Continue w).
Proof.
  intros Hl Hk Hrm. split; [|split].
  - eexists. split.
    { unfold handler_turn. rewrite Hk.
      by rewrite (bind_Ok _ _ _ _ _ (remove_client_present c w l Hl Hrm)). }
    simpl. by rewrite update_eq.
  - intros m q Hq. eexists. split.
    { unfold handler_turn. rewrite Hk, Hq.
      unfold mbind at 1, M_bind at 1, modify_client.
      set (w1 := set_object c _ w).
      by rewrite (bind_Ok _ _ _ _ _ (remove_client_present c w1 l Hl Hrm)). }
    simpl. by rewrite !update_eq.
  - intros Hq. unfold handler_turn. by rewrite Hk, Hq.
Qed.

Lemma handler_turn_connection_ends_witness :
  ∃ w',
    handler_turn 0 false Resets SampleSession.connected = Ok Returned w'
    ∧ pool_clients w' = []
    ∧ send_queue (objects w' 0) = [2]
    ∧ results (messages w' 1) = None
    ∧ outputs w' = [].
Proof.
  destruct (handler_turn_connection_ends 0 SampleSession.connected []
              Resets eq_refl eq_refl eq_refl) as (_ & Hreset & _).
  destruct (Hreset 1 [2] eq_refl) as (w' & Hrun & Hpool & Hobj & Hmsg & Hout).
  exists w'. split; [exact Hrun|]. split; [exact Hpool|].
  rewrite Hobj, Hmsg, Hout. done.
Defined.

(** ** Output directories *)

Lemma string_app_inj_l (s a b : string) : s +:+ a = s +:+ b → a = b.
Proof. induction s as [|x s IH]; simpl; [done|]. intros [= E]. by apply IH. Qed.

Lemma string_app_inj_len (s1 s2 t1 t2 : string) :
  String.length t1 = String.length t2 →
  s1 +:+ t1 = s2 +:+ t2 → s1 = s2 ∧ t1 = t2.
Proof.
  intros Hlen. revert s2. induction s1 as [|a s1 IH]; intros [|b s2] E;
    simpl in E.
  - done.
  - apply (f_equal String.length) in E.
    rewrite !string_length_app in E. simpl in E. lia.
  - apply (f_equal String.length) in E.
    rewrite !string_length_app in E. simpl in E. lia.
  - injection E as -> E. destruct (IH s2 E) as [-> ->]. done.
Qed.

(** X22.  Sessions whose uuids come from [generate_uuid] share an output
    directory only if they have the same address and the same uuid: the
    files of different sessions never land in one directory. *)
Theorem client_directory_inj (d : option string) (c1 c2 : Client) :
  is_uuid (uuid c1) = true → is_uuid (uuid c2) = true →
  addr c1 ≠ addr c2 ∨ uuid c1 ≠ uuid c2 →
  client_directory d c1 ≠ client_directory d c2.
Proof.
  unfold is_uuid. intros [H1 _]%andb_prop [H2 _]%andb_prop Hne E.
  apply Nat.eqb_eq in H1, H2.
  assert (E' : addr c1 +:+ "_" +:+ uuid c1 = addr c2 +:+ "_" +:+ uuid c2).
  { unfold client_directory in E. destruct d as [d|]; [|done].
    by apply string_app_inj_l, string_app_inj_l in E. }
  apply string_app_inj_len in E' as [Ha Hu]; [|by rewrite !string_length_app, H1, H2].
  injection Hu as Hu. tauto.
Qed.

Lemma client_directory_inj_witness :
  client_directory (Some "out") SampleRegistry.A
  ≠ client_directory (Some "out") SampleRegistry.B.
Proof.
  apply client_directory_inj; [reflexivity | reflexivity |].
  left. discriminate.
Defined.
